(** * Pendulum simulator: the physics loop, the parameter store and the view

    A shallow embedding of the repository, one module per source file:

    - [SimulatorContext] ([context/SimulatorContext.tsx]): the parameter
      object, its defaults, [MIN_SAFE_VALUES], [setValidatedParams] and
      [resetParams]; [Provider] is the state its provider holds;
    - [SettingsPanel] ([components/SettingsPanel.tsx]): [handleInputChange]
      and [handleSliderChange], through which a value reaches the store, and
      the tables of the sliders;
    - [PendulumVisualization] ([components/PendulumVisualization.tsx]): the
      main effect, its local variables and the [draw] callback with the
      fixed-step loop (semi-implicit Euler without damping, RK4 with
      damping);
    - [App] ([components/PendulumSimulatorContent.tsx]): the buttons, the
      canvas size, and when the effect starts again; [View] is the zoom and
      pan of the same component, over [useZoomAndPan]
      ([hooks/useZoomAndPan.ts]);
    - [CodePanel] ([components/CodePanel.tsx]): the numbers of
      [updateCalculationSteps];
    - [SimulationTooltip] ([components/SimulationTooltip.tsx]): the two
      previews of a tooltip and their loops;
    - [TooltipTriggerIcon] ([components/TooltipTriggerIcon.tsx]): which
      tooltip is open.

    The calls that paint the canvases, the images and the draggable modal
    (whose position depends on the layout of the page) are left out: they
    never read or write what is modelled here, except that a change of image
    or canvas size starts the main effect again.  Each event handler is
    taken to see the state the previous event left, as React renders between
    events.

    Numbers.  A JavaScript [number] is modelled as [NaN] or an exact
    rational ([Qc], rationals in lowest terms, so equality is Leibniz
    equality).  NaN propagates through arithmetic, [Math.max] and
    [Math.min], and every comparison with NaN is false, as in JavaScript.
    Rounding, overflow and the infinities of binary64 are not modelled: a
    decimal literal stands for the rational it denotes.  [Math.sin] is a
    parameter [sin : Qc -> Qc] of the development; nothing is assumed
    about it unless a statement says so.

    The loops.  On exact rationals [accumulator -= dt] is an exact
    countdown; on the binary64 numbers of JavaScript it rounds.  So the
    countdown of the accumulator, which needs neither [Math.sin] nor the
    parameters, is modelled a second time on binary64 numbers ([Binary64]),
    and what depends on the exact count of turns, or on the loop coming to
    an end for every frame time, is stated there.

    The canvas.  [draw] reads the size of the canvas from the canvas
    element, where the DOM keeps it as an integer
    ([PendulumVisualization.canvasDimension]). *)

From Stdlib Require Import ZArith QArith Qcanon Qround Qabs Lia Lqa Bool List
  Floats.
From Stdlib Require String.
Import ListNotations.

(* ================================================================== *)
(** ** JavaScript numbers *)

Module JS.

Inductive number : Type :=
| NaN : number
| Num : Qc -> number.

(** A numeric literal of the source. *)
Definition lit (x : Q) : number := Num (Q2Qc x).
Arguments lit x%_Q.

Definition add (x y : number) : number :=
  match x, y with
  | Num a, Num b => Num (a + b)%Qc
  | _, _ => NaN
  end.

Definition sub (x y : number) : number :=
  match x, y with
  | Num a, Num b => Num (a - b)%Qc
  | _, _ => NaN
  end.

Definition mul (x y : number) : number :=
  match x, y with
  | Num a, Num b => Num (a * b)%Qc
  | _, _ => NaN
  end.

(** Unary minus. *)
Definition neg (x : number) : number :=
  match x with
  | Num a => Num (- a)%Qc
  | NaN => NaN
  end.

(** Division.  JavaScript answers a division by zero with an infinity (or
    NaN for 0/0); infinities are outside this model, so a zero divisor
    yields [NaN] here.  Every divisor of the modelled code is either a
    non-zero literal or [scaledLength], which is [NaN] or at least 1
    (lemma [scaledLength_cases] below), so this case is never reached. *)
Definition div (x y : number) : number :=
  match x, y with
  | Num a, Num b => if Qc_eq_bool b (Q2Qc 0) then NaN else Num (a / b)%Qc
  | _, _ => NaN
  end.

(** [x >= y] *)
Definition ge (x y : number) : bool :=
  match x, y with
  | Num a, Num b => Qle_bool b a
  | _, _ => false
  end.

(** [x < y] *)
Definition lt (x y : number) : bool :=
  match x, y with
  | Num a, Num b => negb (Qle_bool b a)
  | _, _ => false
  end.

(** [x === y] on numbers. *)
Definition strictEq (x y : number) : bool :=
  match x, y with
  | Num a, Num b => Qc_eq_bool a b
  | _, _ => false
  end.

(** [Math.max(x, y)] and [Math.min(x, y)]: NaN as soon as one argument is. *)
Definition Math_max (x y : number) : number :=
  match x, y with
  | Num a, Num b => if Qle_bool a b then Num b else Num a
  | _, _ => NaN
  end.

Definition Math_min (x y : number) : number :=
  match x, y with
  | Num a, Num b => if Qle_bool a b then Num a else Num b
  | _, _ => NaN
  end.

(** [Math.PI] is the binary64 number 884279719003555 / 2^48. *)
Definition Math_PI : number := Num (Q2Qc (884279719003555 # 281474976710656)).

(** [Math.sin], over a given sine on the finite numbers. *)
Definition Math_sin (sin : Qc -> Qc) (x : number) : number :=
  match x with
  | Num a => Num (sin a)
  | NaN => NaN
  end.

(** [x ?? y] when [x] may be [undefined]. *)
Definition nullish (x : option number) (y : number) : number :=
  match x with
  | Some v => v
  | None => y
  end.

Definition isNum (x : number) : Prop :=
  match x with Num _ => True | NaN => False end.

Declare Scope js_scope.
Delimit Scope js_scope with js.
Bind Scope js_scope with number.
Infix "+" := add : js_scope.
Infix "-" := sub : js_scope.
Infix "*" := mul : js_scope.
Infix "/" := div : js_scope.
Notation "- x" := (neg x) : js_scope.
Infix ">=?" := ge (at level 70) : js_scope.
Infix "<?" := lt (at level 70) : js_scope.
Infix "===" := strictEq (at level 70) : js_scope.
Infix "??" := nullish (at level 45, left associativity) : js_scope.

End JS.

Import JS.
Local Open Scope js_scope.

(* ================================================================== *)
(** ** context/SimulatorContext.tsx *)

Module SimulatorContext.

Record SimulatorParams : Type := mkParams {
  length : number;
  mass : number;
  startingAngle : number;
  gravity : number;
  damping : number;
  timeInterval : number;
  simulationSpeed : number;
  currentAngle : number;
  currentVelocity : number
}.

(** An object that may lack some of the keys of [SimulatorParams]: what the
    [??] fallbacks of [setValidatedParams] provide for. *)
Record PartialParams : Type := mkPartial {
  length' : option number;
  mass' : option number;
  startingAngle' : option number;
  gravity' : option number;
  damping' : option number;
  timeInterval' : option number;
  simulationSpeed' : option number;
  currentAngle' : option number;
  currentVelocity' : option number
}.

(** A complete object seen as an update: every key is present. *)
Definition allOf (p : SimulatorParams) : PartialParams :=
  mkPartial (Some (length p)) (Some (mass p)) (Some (startingAngle p))
    (Some (gravity p)) (Some (damping p)) (Some (timeInterval p))
    (Some (simulationSpeed p)) (Some (currentAngle p))
    (Some (currentVelocity p)).

(** [React.SetStateAction<SimulatorParams>]: a value, or a function of the
    previous state. *)
Inductive SetStateAction : Type :=
| Value : PartialParams -> SetStateAction
| Updater : (SimulatorParams -> PartialParams) -> SetStateAction.

(** [MIN_SAFE_VALUES] *)
Module MIN_SAFE_VALUES.
Definition length : number := lit 1.
Definition mass : number := lit 0.1.
Definition gravity : number := lit 0.01.
Definition damping : number := lit 0.
Definition timeInterval : number := lit 0.001.
Definition simulationSpeed : number := lit 0.1.
End MIN_SAFE_VALUES.

Definition defaultParams : SimulatorParams := {|
  length := lit 100;
  mass := lit 1;
  startingAngle := lit 45;
  gravity := lit 9.81;
  damping := lit 0;
  timeInterval := lit 0.01;
  simulationSpeed := lit 30;
  currentAngle := (lit 45 * Math_PI) / lit 180;
  currentVelocity := lit 0
|}.

(** The object literal built inside [setValidatedParams]: the two spreads
    first, then the six clamped keys. *)
Definition validatedParams (prevParams : SimulatorParams)
    (updatedParams : PartialParams) : SimulatorParams := {|
  startingAngle := startingAngle' updatedParams ?? startingAngle prevParams;
  currentAngle := currentAngle' updatedParams ?? currentAngle prevParams;
  currentVelocity := currentVelocity' updatedParams ?? currentVelocity prevParams;
  length :=
    Math_max (length' updatedParams ?? length prevParams) MIN_SAFE_VALUES.length;
  mass :=
    Math_max (mass' updatedParams ?? mass prevParams) MIN_SAFE_VALUES.mass;
  gravity :=
    Math_max (gravity' updatedParams ?? gravity prevParams) MIN_SAFE_VALUES.gravity;
  damping :=
    Math_max (damping' updatedParams ?? damping prevParams) MIN_SAFE_VALUES.damping;
  timeInterval :=
    Math_max (timeInterval' updatedParams ?? timeInterval prevParams)
      MIN_SAFE_VALUES.timeInterval;
  simulationSpeed :=
    Math_max (simulationSpeed' updatedParams ?? simulationSpeed prevParams)
      MIN_SAFE_VALUES.simulationSpeed
|}.

(** The reducer that [setValidatedParams] hands to [setParams]. *)
Definition setValidatedParams (newParams : SetStateAction)
    (prevParams : SimulatorParams) : SimulatorParams :=
  let updatedParams :=
    match newParams with
    | Updater f => f prevParams
    | Value v => v
    end in
  validatedParams prevParams updatedParams.

(** The object that [resetParams] passes to [setParams]; [d] is the content
    of the module-level [defaultParams] object at the time of the call. *)
Definition resetObject (d : SimulatorParams) : SimulatorParams := {|
  length := length d;
  mass := mass d;
  startingAngle := startingAngle d;
  gravity := gravity d;
  damping := damping d;
  timeInterval := timeInterval d;
  simulationSpeed := simulationSpeed d;
  currentAngle := (startingAngle d * Math_PI) / lit 180;
  currentVelocity := lit 0
|}.

End SimulatorContext.

Module P := SimulatorContext.

(** *** The provider's state

    [useState(defaultParams)] makes the React state [params] start as the
    very object [defaultParams] of the module, and [draw] writes into
    [params] in place; so the store keeps both objects and records which
    one [params] currently is.  Every [setParams] installs a fresh object. *)

Module Provider.

Inductive ParamsRef : Type :=
| DefaultObject   (* [params] is the module-level object [defaultParams] *)
| OwnObject.      (* [params] is the object built by the last [setParams] *)

Record State : Type := mkState {
  defaultParams : P.SimulatorParams;
  ownObject : P.SimulatorParams;
  paramsRef : ParamsRef;
  isPlaying : bool
}.

(** The object the context hands out as [params]. *)
Definition params (c : State) : P.SimulatorParams :=
  match paramsRef c with
  | DefaultObject => defaultParams c
  | OwnObject => ownObject c
  end.

(** [useState(defaultParams)], [useState(false)] *)
Definition initial : State := {|
  defaultParams := P.defaultParams;
  ownObject := P.defaultParams;
  paramsRef := DefaultObject;
  isPlaying := false
|}.

(** [setParams] of the context value, that is [setValidatedParams]. *)
Definition setParams (newParams : P.SetStateAction) (c : State) : State := {|
  defaultParams := defaultParams c;
  ownObject := P.setValidatedParams newParams (params c);
  paramsRef := OwnObject;
  isPlaying := isPlaying c
|}.

Definition setIsPlaying (b : bool) (c : State) : State := {|
  defaultParams := defaultParams c;
  ownObject := ownObject c;
  paramsRef := paramsRef c;
  isPlaying := b
|}.

Definition resetParams (c : State) : State := {|
  defaultParams := defaultParams c;
  ownObject := P.resetObject (defaultParams c);
  paramsRef := OwnObject;
  isPlaying := false
|}.

(** [params.currentAngle = a; params.currentVelocity = v], in place. *)
Definition withKinematics (a v : number) (p : P.SimulatorParams)
  : P.SimulatorParams := {|
  P.length := P.length p;
  P.mass := P.mass p;
  P.startingAngle := P.startingAngle p;
  P.gravity := P.gravity p;
  P.damping := P.damping p;
  P.timeInterval := P.timeInterval p;
  P.simulationSpeed := P.simulationSpeed p;
  P.currentAngle := a;
  P.currentVelocity := v
|}.

Definition writeKinematics (a v : number) (c : State) : State :=
  match paramsRef c with
  | DefaultObject => {|
      defaultParams := withKinematics a v (defaultParams c);
      ownObject := ownObject c;
      paramsRef := DefaultObject;
      isPlaying := isPlaying c |}
  | OwnObject => {|
      defaultParams := defaultParams c;
      ownObject := withKinematics a v (ownObject c);
      paramsRef := OwnObject;
      isPlaying := isPlaying c |}
  end.

End Provider.

(* ================================================================== *)
(** ** components/SettingsPanel.tsx: how a typed value reaches the store *)

Module SettingsPanel.

(** The keys the panel shows: all of [params] but the two kinematic ones. *)
Inductive Key : Type :=
| length | mass | startingAngle | gravity | damping | timeInterval
| simulationSpeed.

(** [MIN_SAFE_VALUES[key] ?? 0]; the panel's copy of the table is the
    context's. *)
Definition getSafeMinValue (key : Key) : number :=
  match key with
  | length => P.MIN_SAFE_VALUES.length
  | mass => P.MIN_SAFE_VALUES.mass
  | startingAngle => lit 0
  | gravity => P.MIN_SAFE_VALUES.gravity
  | damping => P.MIN_SAFE_VALUES.damping
  | timeInterval => P.MIN_SAFE_VALUES.timeInterval
  | simulationSpeed => P.MIN_SAFE_VALUES.simulationSpeed
  end.

(** [{ ...prev, [key]: v }] *)
Definition withKey (key : Key) (v : number) (prev : P.SimulatorParams)
  : P.PartialParams :=
  let u := P.allOf prev in
  match key with
  | length =>
      P.mkPartial (Some v) (P.mass' u) (P.startingAngle' u) (P.gravity' u)
        (P.damping' u) (P.timeInterval' u) (P.simulationSpeed' u)
        (P.currentAngle' u) (P.currentVelocity' u)
  | mass =>
      P.mkPartial (P.length' u) (Some v) (P.startingAngle' u) (P.gravity' u)
        (P.damping' u) (P.timeInterval' u) (P.simulationSpeed' u)
        (P.currentAngle' u) (P.currentVelocity' u)
  | startingAngle =>
      P.mkPartial (P.length' u) (P.mass' u) (Some v) (P.gravity' u)
        (P.damping' u) (P.timeInterval' u) (P.simulationSpeed' u)
        (P.currentAngle' u) (P.currentVelocity' u)
  | gravity =>
      P.mkPartial (P.length' u) (P.mass' u) (P.startingAngle' u) (Some v)
        (P.damping' u) (P.timeInterval' u) (P.simulationSpeed' u)
        (P.currentAngle' u) (P.currentVelocity' u)
  | damping =>
      P.mkPartial (P.length' u) (P.mass' u) (P.startingAngle' u) (P.gravity' u)
        (Some v) (P.timeInterval' u) (P.simulationSpeed' u)
        (P.currentAngle' u) (P.currentVelocity' u)
  | timeInterval =>
      P.mkPartial (P.length' u) (P.mass' u) (P.startingAngle' u) (P.gravity' u)
        (P.damping' u) (Some v) (P.simulationSpeed' u)
        (P.currentAngle' u) (P.currentVelocity' u)
  | simulationSpeed =>
      P.mkPartial (P.length' u) (P.mass' u) (P.startingAngle' u) (P.gravity' u)
        (P.damping' u) (P.timeInterval' u) (Some v)
        (P.currentAngle' u) (P.currentVelocity' u)
  end.

(** The argument [handleInputChange(key, value)] passes to [setParams]; an
    input field calls it with [Number.parseFloat(e.target.value)], which is
    NaN when the field has been emptied. *)
Definition handleInputChange (key : Key) (value : number) : P.SetStateAction :=
  let safeValue := Math_max value (getSafeMinValue key) in
  P.Updater (withKey key safeValue).

(** [params[key]], the [value] of the entry the panel renders for [key]. *)
Definition entry (key : Key) (params : P.SimulatorParams) : number :=
  match key with
  | length => P.length params
  | mass => P.mass params
  | startingAngle => P.startingAngle params
  | gravity => P.gravity params
  | damping => P.damping params
  | timeInterval => P.timeInterval params
  | simulationSpeed => P.simulationSpeed params
  end.

(** [handleSliderChange(key)]: the slider hands over an array, of which the
    first element is used; with an empty array nothing is written. *)
Definition handleSliderChange (key : Key) (values : list number)
  : option P.SetStateAction :=
  match values with
  | value :: _ => Some (handleInputChange key value)
  | [] => None
  end.

(** [getSliderMin], [getSliderMax], [getSliderStep].  Their [default]
    branches serve keys the panel never shows. *)
Definition getSliderMin (key : Key) : number :=
  match key with
  | length => lit 1
  | mass => lit 0.1
  | startingAngle => lit (-180)
  | gravity => lit 0.01
  | damping => lit 0
  | timeInterval => lit 0.001
  | simulationSpeed => lit 0.1
  end.

Definition getSliderMax (key : Key) : number :=
  match key with
  | length => lit 200
  | mass => lit 10
  | startingAngle => lit 180
  | gravity => lit 20
  | damping => lit 2
  | timeInterval => lit 1
  | simulationSpeed => lit 50
  end.

Definition getSliderStep (key : Key) : number :=
  match key with
  | length => lit 1
  | startingAngle => lit 1
  | timeInterval => lit 0.001
  | damping => lit 0.01
  | simulationSpeed => lit 0.1
  | mass | gravity => lit 0.01
  end.

(** The [min] the slider of [key] is rendered with:
    [Math.max(getSliderMin(key), getSafeMinValue(key))]. *)
Definition sliderMin (key : Key) : number :=
  Math_max (getSliderMin key) (getSafeMinValue key).

End SettingsPanel.

(* ================================================================== *)
(** ** components/PendulumVisualization.tsx *)

Module PendulumVisualization.

(** The variables of the main effect's closure.  (The React states [angle]
    and [angleVelocity] only mirror [currentAngle] and [currentVelocity] for
    display; [draw] never reads them.) *)
Record Locals : Type := mkLocals {
  currentAngle : number;
  currentVelocity : number;
  dt : number;
  simulationSpeed : number;
  accumulator : number;
  lastTimestamp : option number
}.

(** "Initialize simulation state": what each run of the effect starts from. *)
Definition initLocals (params : P.SimulatorParams) : Locals := {|
  currentAngle := (P.startingAngle params * Math_PI) / lit 180;
  currentVelocity := lit 0;
  dt := Math_max (P.timeInterval params) (lit 0.001);
  simulationSpeed := Math_max (P.simulationSpeed params) (lit 0.1);
  accumulator := lit 0;
  lastTimestamp := None
|}.

Definition setKinematics (a v : number) (l : Locals) : Locals := {|
  currentAngle := a;
  currentVelocity := v;
  dt := dt l;
  simulationSpeed := simulationSpeed l;
  accumulator := accumulator l;
  lastTimestamp := lastTimestamp l
|}.

Definition setAccumulator (acc : number) (l : Locals) : Locals := {|
  currentAngle := currentAngle l;
  currentVelocity := currentVelocity l;
  dt := dt l;
  simulationSpeed := simulationSpeed l;
  accumulator := acc;
  lastTimestamp := lastTimestamp l
|}.

Definition setLastTimestamp (t : number) (l : Locals) : Locals := {|
  currentAngle := currentAngle l;
  currentVelocity := currentVelocity l;
  dt := dt l;
  simulationSpeed := simulationSpeed l;
  accumulator := accumulator l;
  lastTimestamp := Some t
|}.

(** "Set canvas dimensions": [canvas.width = width] and
    [canvas.height = height].  The DOM keeps the size of a canvas as an
    [unsigned long]: the number assigned is truncated towards zero and taken
    modulo 2^32 (NaN gives 0), and a result above 2^31 - 1 is replaced by the
    attribute's default, 300 for the width and 150 for the height.  The
    value is what [canvas.width] or [canvas.height] gives afterwards. *)
Definition canvasDimension (default : Z) (value : number) : number :=
  match value with
  | NaN => lit 0
  | Num q =>
      let n :=
        (Z.quot (Qnum (this q)) (Zpos (Qden (this q))) mod 2 ^ 32)%Z in
      if (n <=? 2147483647)%Z
      then Num (Q2Qc (inject_Z n))
      else Num (Q2Qc (inject_Z default))
  end.

(** [maxLength] and [scaledLength] of [draw], from [canvas.width] and
    [canvas.height]. *)
Definition scaledLength (params : P.SimulatorParams)
    (canvasWidth canvasHeight : number) : number :=
  let maxLength := Math_min canvasWidth canvasHeight * lit 0.8 in
  Math_max ((P.length params / lit 200) * maxLength) (lit 1).

Section Physics.

Variable sin : Qc -> Qc.

(** The [acceleration] arrow function of the RK4 branch. *)
Definition acceleration (params : P.SimulatorParams) (gravity scaledLength : number)
    (theta omega : number) : number :=
  (- gravity / scaledLength) * Math_sin sin theta - P.damping params * omega.

(** The body of the [try] block.  Arithmetic on numbers never throws, so the
    [catch] clause has no counterpart. *)
Definition integrate (params : P.SimulatorParams) (scaledLength : number)
    (l : Locals) : Locals :=
  if P.damping params === lit 0 then
    let gravity := Math_max (P.gravity params) (lit 0.01) in
    let currentVelocity1 :=
      currentVelocity l +
      (- gravity / scaledLength) * Math_sin sin (currentAngle l)
        * dt l * simulationSpeed l in
    let currentAngle1 :=
      currentAngle l + currentVelocity1 * dt l * simulationSpeed l in
    setKinematics currentAngle1 currentVelocity1 l
  else
    let effectiveDT := dt l * simulationSpeed l in
    let gravity := Math_max (P.gravity params) (lit 0.01) in
    let acceleration := acceleration params gravity scaledLength in
    let currentAngle := currentAngle l in
    let currentVelocity := currentVelocity l in
    let k1Angle := currentVelocity in
    let k1Omega := acceleration currentAngle currentVelocity in
    let k2Angle := currentVelocity + k1Omega * effectiveDT / lit 2 in
    let k2Omega :=
      acceleration (currentAngle + k1Angle * effectiveDT / lit 2)
                   (currentVelocity + k1Omega * effectiveDT / lit 2) in
    let k3Angle := currentVelocity + k2Omega * effectiveDT / lit 2 in
    let k3Omega :=
      acceleration (currentAngle + k2Angle * effectiveDT / lit 2)
                   (currentVelocity + k2Omega * effectiveDT / lit 2) in
    let k4Angle := currentVelocity + k3Omega * effectiveDT in
    let k4Omega :=
      acceleration (currentAngle + k3Angle * effectiveDT)
                   (currentVelocity + k3Omega * effectiveDT) in
    setKinematics
      (currentAngle +
       (effectiveDT / lit 6) *
       (k1Angle + lit 2 * k2Angle + lit 2 * k3Angle + k4Angle))
      (currentVelocity +
       (effectiveDT / lit 6) *
       (k1Omega + lit 2 * k2Omega + lit 2 * k3Omega + k4Omega))
      l.

(** One turn of [while (accumulator >= dt)]: the [try] block, then
    [accumulator -= dt]. *)
Definition loopBody (params : P.SimulatorParams) (scaledLength : number)
    (l : Locals) : Locals :=
  let l' := integrate params scaledLength l in
  setAccumulator (accumulator l' - dt l') l'.

(** The loop itself; [fuel] bounds the number of turns and [None] means the
    bound was reached with the condition still true.  (With exact rationals
    each turn takes exactly [dt] off the accumulator; for the rounding of
    binary64 see [Binary64.turns].) *)
Fixpoint whileLoop (fuel : nat) (params : P.SimulatorParams)
    (scaledLength : number) (l : Locals) : option Locals :=
  if accumulator l >=? dt l then
    match fuel with
    | O => None
    | S fuel' => whileLoop fuel' params scaledLength (loopBody params scaledLength l)
    end
  else Some l.

(** [draw] from "Handle simulation timing" on, given the frame time: the
    engine's [advance(frameDeltaSeconds)]. The canvas calls in between
    neither read nor write the simulation state. *)
Definition advance (fuel : nat) (frameTime : number)
    (canvasWidth canvasHeight : number)
    (cl : Provider.State * Locals) : option (Provider.State * Locals) :=
  let (c, l) := cl in
  let l1 :=
    if Provider.isPlaying c
    then setAccumulator (accumulator l + frameTime) l
    else l in
  let scaledLength := scaledLength (Provider.params c) canvasWidth canvasHeight in
  if Provider.isPlaying c then
    match whileLoop fuel (Provider.params c) scaledLength l1 with
    | Some l2 =>
        Some (Provider.writeKinematics (currentAngle l2) (currentVelocity l2) c, l2)
    | None => None
    end
  else Some (c, l1).

(** The animation-frame callback. *)
Definition draw (fuel : nat) (timestamp : number)
    (canvasWidth canvasHeight : number)
    (cl : Provider.State * Locals) : option (Provider.State * Locals) :=
  let (c, l) := cl in
  let lastTimestamp0 :=
    match lastTimestamp l with
    | None => timestamp
    | Some t => t
    end in
  let frameTime := (timestamp - lastTimestamp0) / lit 1000 in
  advance fuel frameTime canvasWidth canvasHeight (c, setLastTimestamp timestamp l).

End Physics.

End PendulumVisualization.

Module V := PendulumVisualization.

(* ================================================================== *)
(** ** components/PendulumSimulatorContent.tsx: the running application *)

Module App.

(** The provider's state, the size of the canvas ([canvas.width] and
    [canvas.height], as the main effect of [PendulumVisualization] sets them
    from its props), [resetTrigger], and the closure of that effect. *)
Record World : Type := mkWorld {
  context : Provider.State;
  canvasWidth : number;
  canvasHeight : number;
  resetTrigger : nat;
  locals : V.Locals
}.

(** The main effect of [PendulumVisualization] depends on
    [params, ballImage, width, height, resetTrigger, imageSettings].  When
    one of them is replaced React cancels the pending frame and runs the
    effect again, which starts from "Initialize simulation state". *)
Definition rerunEffect (c : Provider.State) (cw ch : number) (trigger : nat)
  : World := {|
  context := c;
  canvasWidth := cw;
  canvasHeight := ch;
  resetTrigger := trigger;
  locals := V.initLocals (Provider.params c)
|}.

(** First render: [useState({ width: 400, height: 400 })], [useState(0)]. *)
Definition initial : World :=
  rerunEffect Provider.initial (lit 400) (lit 400) 0.

(** The Play / Pause buttons.  [isPlaying] reaches [draw] through
    [isPlayingRef], which is not a dependency of the main effect. *)
Definition setIsPlaying (b : bool) (w : World) : World := {|
  context := Provider.setIsPlaying b (context w);
  canvasWidth := canvasWidth w;
  canvasHeight := canvasHeight w;
  resetTrigger := resetTrigger w;
  locals := locals w
|}.

Definition play : World -> World := setIsPlaying true.
Definition pause : World -> World := setIsPlaying false.

(** A write through the context's [setParams]. *)
Definition setParams (newParams : P.SetStateAction) (w : World) : World :=
  rerunEffect (Provider.setParams newParams (context w))
    (canvasWidth w) (canvasHeight w) (resetTrigger w).

(** [set(partialUpdate)] of the parameter store. *)
Definition set (u : P.PartialParams) : World -> World :=
  setParams (P.Value u).

(** "Reset All" of the settings panel. *)
Definition resetParams (w : World) : World :=
  rerunEffect (Provider.resetParams (context w))
    (canvasWidth w) (canvasHeight w) (resetTrigger w).

(** [handleReset], the Reset button. *)
Definition handleReset (w : World) : World :=
  rerunEffect
    (Provider.resetParams (Provider.setIsPlaying false (context w)))
    (canvasWidth w) (canvasHeight w) (S (resetTrigger w)).

(** [setCanvasSize({ width, height })] after the container took a new size:
    the props [width] and [height] change, so the effect starts again, and
    it assigns them to the canvas. *)
Definition setCanvasSize (width height : number) (w : World) : World :=
  rerunEffect (context w)
    (V.canvasDimension 300 width) (V.canvasDimension 150 height)
    (resetTrigger w).

(** [ballImage] or [imageSettings] replaced. *)
Definition imageChanged (w : World) : World :=
  rerunEffect (context w) (canvasWidth w) (canvasHeight w) (resetTrigger w).

Section Run.

Variable sin : Qc -> Qc.

Definition withEngine (w : World) (r : option (Provider.State * V.Locals))
  : option World :=
  match r with
  | Some (c, l) => Some {|
      context := c;
      canvasWidth := canvasWidth w;
      canvasHeight := canvasHeight w;
      resetTrigger := resetTrigger w;
      locals := l |}
  | None => None
  end.

(** One animation frame at [timestamp]. *)
Definition draw (fuel : nat) (timestamp : number) (w : World) : option World :=
  withEngine w
    (V.draw sin fuel timestamp (canvasWidth w) (canvasHeight w)
       (context w, locals w)).

(** One animation frame, given the time elapsed since the previous one. *)
Definition advance (fuel : nat) (frameDeltaSeconds : number) (w : World)
  : option World :=
  withEngine w
    (V.advance sin fuel frameDeltaSeconds (canvasWidth w) (canvasHeight w)
       (context w, locals w)).

Inductive Event : Type :=
| AnimationFrame (timestamp : number)
| Advance (frameDeltaSeconds : number)
| SetIsPlaying (b : bool)
| SetParams (newParams : P.SetStateAction)
| ResetParams
| HandleReset
| SetCanvasSize (cw ch : number)
| ImageChanged.

Definition step (fuel : nat) (e : Event) (w : World) : option World :=
  match e with
  | AnimationFrame t => draw fuel t w
  | Advance dt => advance fuel dt w
  | SetIsPlaying b => Some (setIsPlaying b w)
  | SetParams a => Some (setParams a w)
  | ResetParams => Some (resetParams w)
  | HandleReset => Some (handleReset w)
  | SetCanvasSize cw ch => Some (setCanvasSize cw ch w)
  | ImageChanged => Some (imageChanged w)
  end.

Fixpoint run (fuel : nat) (es : list Event) (w : World) : option World :=
  match es with
  | [] => Some w
  | e :: es' =>
      match step fuel e w with
      | Some w' => run fuel es' w'
      | None => None
      end
  end.

(** The worlds the application can be in. *)
Definition reachable (w : World) : Prop :=
  exists fuel es, run fuel es initial = Some w.

End Run.

(** The engine's kinematic state: angle and angular velocity. *)
Definition kinematicState (w : World) : number * number :=
  (V.currentAngle (locals w), V.currentVelocity (locals w)).

End App.

(* ================================================================== *)
(** ** hooks/useZoomAndPan.ts *)

Module useZoomAndPan.

Record Point : Type := mkPoint { x : number; y : number }.

(** The four [useState] cells of the hook. *)
Record State : Type := mkState {
  zoom : number;
  pan : Point;
  isDragging : bool;
  dragStart : Point
}.

Definition initial : State := {|
  zoom := lit 1;
  pan := {| x := lit 0; y := lit 0 |};
  isDragging := false;
  dragStart := {| x := lit 0; y := lit 0 |}
|}.

(** [setZoom] with an updater function, and [setPan]. *)
Definition setZoom (f : number -> number) (s : State) : State := {|
  zoom := f (zoom s);
  pan := pan s;
  isDragging := isDragging s;
  dragStart := dragStart s
|}.

Definition setPan (p : Point) (s : State) : State := {|
  zoom := zoom s;
  pan := p;
  isDragging := isDragging s;
  dragStart := dragStart s
|}.

Definition handleMouseDown (clientX clientY : number) (s : State) : State := {|
  zoom := zoom s;
  pan := pan s;
  isDragging := true;
  dragStart := {| x := clientX - x (pan s); y := clientY - y (pan s) |}
|}.

Definition handleMouseMove (clientX clientY : number) (s : State) : State :=
  if negb (isDragging s) then s
  else
    setPan {| x := clientX - x (dragStart s); y := clientY - y (dragStart s) |} s.

Definition handleMouseUp (s : State) : State := {|
  zoom := zoom s;
  pan := pan s;
  isDragging := false;
  dragStart := dragStart s
|}.

Definition handleWheel (deltaY : number) : State -> State :=
  setZoom (fun prevZoom =>
             Math_max (lit 0.5) (Math_min (lit 5) (prevZoom - deltaY * lit 0.001))).

Definition resetView (s : State) : State :=
  setPan {| x := lit 0; y := lit 0 |} (setZoom (fun _ => lit 1) s).

End useZoomAndPan.

(** *** components/PendulumSimulatorContent.tsx: the view

    The container of the canvas is wired to the hook's handlers
    ([onMouseLeave] to [handleMouseUp]), and the three zoom buttons go
    through [setZoom] and [setPan]. *)

Module View.

Import useZoomAndPan.

Definition onZoomIn : State -> State :=
  setZoom (fun z => Math_min (lit 5) (z + lit 0.1)).

Definition onZoomOut : State -> State :=
  setZoom (fun z => Math_max (lit 0.5) (z - lit 0.1)).

Definition onReset (s : State) : State :=
  setPan {| x := lit 0; y := lit 0 |} (setZoom (fun _ => lit 1) s).

Inductive Event : Type :=
| MouseDown (clientX clientY : number)
| MouseMove (clientX clientY : number)
| MouseUp
| MouseLeave
| Wheel (deltaY : number)
| ZoomIn
| ZoomOut
| Reset.

Definition step (s : State) (e : Event) : State :=
  match e with
  | MouseDown clientX clientY => handleMouseDown clientX clientY s
  | MouseMove clientX clientY => handleMouseMove clientX clientY s
  | MouseUp => handleMouseUp s
  | MouseLeave => handleMouseUp s
  | Wheel deltaY => handleWheel deltaY s
  | ZoomIn => onZoomIn s
  | ZoomOut => onZoomOut s
  | Reset => onReset s
  end.

Definition run (es : list Event) (s : State) : State := fold_left step es s.

End View.

(* ================================================================== *)
(** ** components/CodePanel.tsx: the numbers of "Physics Calculations" *)

Module CodePanel.

Section Steps.

Variable sin : Qc -> Qc.

(** The numbers [updateCalculationSteps] computes and prints into its five
    steps (the formatting with [toFixed] is not modelled). *)
Inductive Calculation : Type :=
| NoDamping (effectiveDT acceleration velocityChange newVelocity
             angleChange newAngle : number)
| WithDamping (effectiveDT acceleration currentAngle currentVelocity : number).

Definition updateCalculationSteps
    (currentAngle currentVelocity prevAngle prevVelocity : number)
    (params : P.SimulatorParams) : Calculation :=
  let dt := P.timeInterval params in
  let simulationSpeed := P.simulationSpeed params in
  let effectiveDT := dt * simulationSpeed in
  let gravity := P.gravity params in
  let length := P.length params / lit 100 in
  let damping := P.damping params in
  if damping === lit 0 then
    let acceleration := (- gravity / length) * Math_sin sin prevAngle in
    let velocityChange := acceleration * effectiveDT in
    let newVelocity := prevVelocity + velocityChange in
    let angleChange := prevVelocity * effectiveDT in
    let newAngle := prevAngle + angleChange in
    NoDamping effectiveDT acceleration velocityChange newVelocity
      angleChange newAngle
  else
    let acceleration :=
      (- gravity / length) * Math_sin sin prevAngle - damping * prevVelocity in
    WithDamping effectiveDT acceleration currentAngle currentVelocity.

End Steps.

End CodePanel.

(* ================================================================== *)
(** ** components/SimulationTooltip.tsx: the two previews of a tooltip *)

Module SimulationTooltip.

(** The key a tooltip is about: one of the seven the settings panel shows,
    or one of the two of the image settings. *)
Inductive ParamKey : Type :=
| param (key : SettingsPanel.Key)
| rotation
| scale.

Definition isTimeInterval (paramKey : ParamKey) : bool :=
  match paramKey with
  | param SettingsPanel.timeInterval => true
  | _ => false
  end.

Definition isSimulationSpeed (paramKey : ParamKey) : bool :=
  match paramKey with
  | param SettingsPanel.simulationSpeed => true
  | _ => false
  end.

(** [{ ...params, [paramKey]: sliderValue }]; [rotation] and [scale] add a
    key that nothing reads. *)
Definition comparisonSimParams (params : P.SimulatorParams)
    (paramKey : ParamKey) (sliderValue : number) : P.SimulatorParams :=
  match paramKey with
  | param SettingsPanel.length =>
      P.mkParams sliderValue (P.mass params) (P.startingAngle params)
        (P.gravity params) (P.damping params) (P.timeInterval params)
        (P.simulationSpeed params) (P.currentAngle params)
        (P.currentVelocity params)
  | param SettingsPanel.mass =>
      P.mkParams (P.length params) sliderValue (P.startingAngle params)
        (P.gravity params) (P.damping params) (P.timeInterval params)
        (P.simulationSpeed params) (P.currentAngle params)
        (P.currentVelocity params)
  | param SettingsPanel.startingAngle =>
      P.mkParams (P.length params) (P.mass params) sliderValue
        (P.gravity params) (P.damping params) (P.timeInterval params)
        (P.simulationSpeed params) (P.currentAngle params)
        (P.currentVelocity params)
  | param SettingsPanel.gravity =>
      P.mkParams (P.length params) (P.mass params) (P.startingAngle params)
        sliderValue (P.damping params) (P.timeInterval params)
        (P.simulationSpeed params) (P.currentAngle params)
        (P.currentVelocity params)
  | param SettingsPanel.damping =>
      P.mkParams (P.length params) (P.mass params) (P.startingAngle params)
        (P.gravity params) sliderValue (P.timeInterval params)
        (P.simulationSpeed params) (P.currentAngle params)
        (P.currentVelocity params)
  | param SettingsPanel.timeInterval =>
      P.mkParams (P.length params) (P.mass params) (P.startingAngle params)
        (P.gravity params) (P.damping params) sliderValue
        (P.simulationSpeed params) (P.currentAngle params)
        (P.currentVelocity params)
  | param SettingsPanel.simulationSpeed =>
      P.mkParams (P.length params) (P.mass params) (P.startingAngle params)
        (P.gravity params) (P.damping params) (P.timeInterval params)
        sliderValue (P.currentAngle params) (P.currentVelocity params)
  | rotation | scale => params
  end.

Definition canvasWidth : number := lit 150.
Definition canvasHeight : number := lit 150.

(** [baseSimulationSpeed] after its two special cases. *)
Definition baseSimulationSpeed (paramKey : ParamKey) : number :=
  if isTimeInterval paramKey then lit 30
  else if isSimulationSpeed paramKey then lit 10
  else lit 20.

(** [defaultDt] / [comparisonDt] and [defaultSimSpeed] /
    [comparisonSimSpeed], for the parameter object of the pendulum. *)
Definition dtOf (paramKey : ParamKey) (simParams : P.SimulatorParams) : number :=
  if isTimeInterval paramKey then P.timeInterval simParams else lit 0.01.

Definition simSpeedOf (paramKey : ParamKey) (simParams : P.SimulatorParams)
  : number :=
  if isSimulationSpeed paramKey then P.simulationSpeed simParams
  else baseSimulationSpeed paramKey.

(** One of the two pendulums of the effect's closure. *)
Record Pendulum : Type := mkPendulum {
  angle : number;
  velocity : number;
  accumulator : number
}.

Record State : Type := mkState {
  default : Pendulum;
  comparison : Pendulum;
  lastTimestamp : option number
}.

Definition initPendulum (simParams : P.SimulatorParams) : Pendulum := {|
  angle := (P.startingAngle simParams * Math_PI) / lit 180;
  velocity := lit 0;
  accumulator := lit 0
|}.

(** What the effect starts from when the tooltip opens (or its slider, its
    key or [params] change). *)
Definition initial (params : P.SimulatorParams) (paramKey : ParamKey)
    (sliderValue : number) : State := {|
  default := initPendulum params;
  comparison := initPendulum (comparisonSimParams params paramKey sliderValue);
  lastTimestamp := None
|}.

Section Preview.

Variable sin : Qc -> Qc.

(** One turn of a [while (accumulator >= dt)] loop of [animate]: damping,
    gravity, angle, then [accumulator -= dt]. *)
Definition loopBody (simParams : P.SimulatorParams) (dt simSpeed : number)
    (p : Pendulum) : Pendulum :=
  let fixedDt := dt * simSpeed in
  let gravity := Math_max (P.gravity simParams) (lit 0.01) in
  let length :=
    Math_max ((P.length simParams / lit 200) * (canvasHeight * lit 0.8)) (lit 1) in
  let damping := P.damping simParams in
  let velocity1 := velocity p * (lit 1 - damping * dt) in
  let velocity2 :=
    velocity1 + (- gravity / length) * Math_sin sin (angle p) * fixedDt in
  let angle1 := angle p + velocity2 * fixedDt in
  {| angle := angle1; velocity := velocity2; accumulator := accumulator p - dt |}.

(** The loop; [fuel] bounds the number of turns.  (As in the main view, the
    countdown is exact here and rounds in binary64.) *)
Fixpoint whileLoop (fuel : nat) (simParams : P.SimulatorParams)
    (dt simSpeed : number) (p : Pendulum) : option Pendulum :=
  if accumulator p >=? dt then
    match fuel with
    | O => None
    | S fuel' => whileLoop fuel' simParams dt simSpeed (loopBody simParams dt simSpeed p)
    end
  else Some p.

(** [accumulator += frameTime] and the loop, for one pendulum. *)
Definition advance (fuel : nat) (paramKey : ParamKey)
    (simParams : P.SimulatorParams) (frameTime : number) (p : Pendulum)
  : option Pendulum :=
  whileLoop fuel simParams (dtOf paramKey simParams)
    (simSpeedOf paramKey simParams)
    {| angle := angle p; velocity := velocity p;
       accumulator := accumulator p + frameTime |}.

(** The animation-frame callback [animate]. *)
Definition animate (fuel : nat) (params : P.SimulatorParams)
    (paramKey : ParamKey) (sliderValue : number) (timestamp : number)
    (s : State) : option State :=
  let lastTimestamp0 :=
    match lastTimestamp s with
    | None => timestamp
    | Some t => t
    end in
  let frameTime :=
    Math_min ((timestamp - lastTimestamp0) / lit 1000) (lit 0.1) in
  match advance fuel paramKey params frameTime (default s) with
  | None => None
  | Some d =>
      match advance fuel paramKey
              (comparisonSimParams params paramKey sliderValue) frameTime
              (comparison s) with
      | None => None
      | Some c =>
          Some {| default := d; comparison := c; lastTimestamp := Some timestamp |}
      end
  end.

(** The frames at the given timestamps, one after the other. *)
Fixpoint frames (fuel : nat) (params : P.SimulatorParams)
    (paramKey : ParamKey) (sliderValue : number) (timestamps : list number)
    (s : State) : option State :=
  match timestamps with
  | [] => Some s
  | timestamp :: rest =>
      match animate fuel params paramKey sliderValue timestamp s with
      | Some s' => frames fuel params paramKey sliderValue rest s'
      | None => None
      end
  end.

End Preview.

End SimulationTooltip.

(* ================================================================== *)
(** ** components/TooltipTriggerIcon.tsx: which tooltip is open *)

Module TooltipTriggerIcon.

(** A mounted [TooltipTriggerIcon]: its [paramKey] and its state
    [isTooltipOpen]. *)
Record Instance : Type := mkInstance {
  paramKey : String.string;
  isTooltipOpen : bool
}.

(** The module-level [activeTooltipKey] and the mounted instances, each of
    which has its [updateTooltipState] in [tooltipSubscribers]. *)
Record State : Type := mkState {
  activeTooltipKey : option String.string;
  instances : list Instance
}.

Definition initial : State := {| activeTooltipKey := None; instances := [] |}.

(** [activeTooltipKey === paramKey] *)
Definition isActive (active : option String.string) (key : String.string) : bool :=
  match active with
  | Some k => String.eqb k key
  | None => false
  end.

(** [setIsTooltipOpen(activeTooltipKey === paramKey)] *)
Definition updateTooltipState (active : option String.string) (i : Instance)
  : Instance :=
  {| paramKey := paramKey i; isTooltipOpen := isActive active (paramKey i) |}.

Definition notifyTooltipChange (s : State) : State := {|
  activeTooltipKey := activeTooltipKey s;
  instances := map (updateTooltipState (activeTooltipKey s)) (instances s)
|}.

Definition handleOpenTooltip (key : String.string) (s : State) : State :=
  notifyTooltipChange
    {| activeTooltipKey := Some key; instances := instances s |}.

Definition handleCloseTooltip (key : String.string) (s : State) : State :=
  if isActive (activeTooltipKey s) key then
    notifyTooltipChange {| activeTooltipKey := None; instances := instances s |}
  else s.

(** An icon is mounted ([useState(false)], then the effect subscribes it) or
    unmounted (the effect's cleanup removes it). *)
Definition mount (key : String.string) (s : State) : State := {|
  activeTooltipKey := activeTooltipKey s;
  instances := instances s ++ [ {| paramKey := key; isTooltipOpen := false |} ]
|}.

Definition unmount (n : nat) (s : State) : State := {|
  activeTooltipKey := activeTooltipKey s;
  instances := firstn n (instances s) ++ skipn (S n) (instances s)
|}.

Inductive Event : Type :=
| Mount (key : String.string)
| Unmount (n : nat)
| Open (key : String.string)
| Close (key : String.string).

Definition step (s : State) (e : Event) : State :=
  match e with
  | Mount key => mount key s
  | Unmount n => unmount n s
  | Open key => handleOpenTooltip key s
  | Close key => handleCloseTooltip key s
  end.

Definition run (es : list Event) (s : State) : State := fold_left step es s.

End TooltipTriggerIcon.

(* ================================================================== *)
(** ** The integration step as the specification words it (section 4.2) *)

Module Spec.

Section Formulas.

Variable sin : Qc -> Qc.

Definition State : Type := (number * number)%type.   (* angle, velocity *)

(** [acceleration(theta, omega) =
      (-gravity / effectiveLength) * sin(theta) - damping * omega] *)
Definition acceleration (gravity effectiveLength damping : number)
    (theta omega : number) : number :=
  (- gravity / effectiveLength) * Math_sin sin theta - damping * omega.

(** Semi-implicit Euler: the velocity first, then the angle from the new
    velocity. *)
Definition semiImplicitEuler (gravity effectiveLength effectiveStep : number)
    (s : State) : State :=
  let (angle, velocity) := s in
  let velocity' :=
    velocity + (- gravity / effectiveLength) * Math_sin sin angle * effectiveStep in
  let angle' := angle + velocity' * effectiveStep in
  (angle', velocity').

Definition vadd (a b : State) : State := (fst a + fst b, snd a + snd b).
Definition vscale (k : number) (a : State) : State := (k * fst a, k * snd a).

(** The classical fourth-order Runge-Kutta step for [y' = f y]. *)
Definition RK4 (f : State -> State) (h : number) (y : State) : State :=
  let k1 := f y in
  let k2 := f (vadd y (vscale (h / lit 2) k1)) in
  let k3 := f (vadd y (vscale (h / lit 2) k2)) in
  let k4 := f (vadd y (vscale h k3)) in
  vadd y
    (vscale (h / lit 6)
       (vadd (vadd (vadd k1 (vscale (lit 2) k2)) (vscale (lit 2) k3)) k4)).

(** The pendulum as a first-order system: angle' = velocity,
    velocity' = acceleration(angle, velocity). *)
Definition pendulum (gravity effectiveLength damping : number) (y : State)
  : State :=
  (snd y, acceleration gravity effectiveLength damping (fst y) (snd y)).

Definition rk4Step (gravity effectiveLength damping effectiveStep : number)
  : State -> State :=
  RK4 (pendulum gravity effectiveLength damping) effectiveStep.

(** Method selection. *)
Definition step (damping gravity effectiveLength effectiveStep : number)
  : State -> State :=
  if damping === lit 0
  then semiImplicitEuler gravity effectiveLength effectiveStep
  else rk4Step gravity effectiveLength damping effectiveStep.

(** [effectiveLength] as section 4.2 defines it for a length given in
    centimetres; [floor] is the small positive constant. *)
Definition effectiveLength (floor : number) (length : number) : number :=
  Math_max (length / lit 100) floor.

End Formulas.

End Spec.

(* ================================================================== *)
(** ** Vocabulary of the statements *)

(** Angle and velocity held by the effect's closure. *)
Definition kinematics (l : V.Locals) : Spec.State :=
  (V.currentAngle l, V.currentVelocity l).

(** The gravity a step uses: floored again inside the step. *)
Definition stepGravity (params : P.SimulatorParams) : number :=
  Math_max (P.gravity params) (lit 0.01).

(** The effective step: [dt * simulationSpeed]. *)
Definition effectiveStep (l : V.Locals) : number :=
  V.dt l * V.simulationSpeed l.

(** The rational a number stands for, if it is one. *)
Definition valueOf (x : number) : option Q :=
  match x with
  | Num a => Some (this a)
  | NaN => None
  end.

(** Two numbers agree to within [tol]. *)
Definition closeTo (tol : Q) (x y : number) : Prop :=
  match x, y with
  | Num a, Num b => (Qabs (this a - this b) <= tol)%Q
  | _, _ => False
  end.

(** *** The loop *)

(** The loop's fixed step is bounded away from zero: [dt] comes from
    [Math.max(params.timeInterval, 0.001)], so it is NaN or at least 0.001. *)
Definition dtFloored (l : V.Locals) : Prop :=
  V.dt l = NaN \/ exists d, V.dt l = Num d /\ (Q2Qc 0.001 <= d)%Qc.

(** A number of turns that is always enough: one more than the number of
    milliseconds in the accumulator. *)
Definition fuelFor (acc : number) : nat :=
  match acc with
  | Num a => S (Z.to_nat (Qfloor (this a * 1000)))
  | NaN => O
  end.

(** The accumulator after [n] turns. *)
Definition drained (n : nat) (acc dt : number) : number :=
  Nat.iter n (fun a => a - dt) acc.

(** The loop makes exactly [n] turns from [l] to [l']: its condition holds
    before each of the first [n] turns and fails after the [n]-th. *)
Definition makesTurns (sin : Qc -> Qc) (params : P.SimulatorParams)
    (scaledLength : number) (n : nat) (l l' : V.Locals) : Prop :=
  l' = Nat.iter n (V.loopBody sin params scaledLength) l /\
  (forall k, (k < n)%nat ->
     (V.accumulator (Nat.iter k (V.loopBody sin params scaledLength) l)
        >=? V.dt (Nat.iter k (V.loopBody sin params scaledLength) l)) = true) /\
  (V.accumulator l' >=? V.dt l') = false.

(** *** The parameter store *)

(** What "clamped to its minimum" means for one key: the stored value is
    [Math.max(written, min)]; it never compares below the minimum; a written
    value below the minimum is raised to it; a written value at or above the
    minimum is stored as it is.  (A written NaN is stored as NaN: it is not
    below the minimum, and [Math.max] passes it on.) *)
Definition clampedTo (min written stored : number) : Prop :=
  stored = Math_max written min /\
  (stored <? min) = false /\
  ((written <? min) = true -> stored = min) /\
  ((written >=? min) = true -> stored = written).

(** The object a [SetStateAction] stands for. *)
Definition updateOf (newParams : P.SetStateAction) (prevParams : P.SimulatorParams)
  : P.PartialParams :=
  match newParams with
  | P.Updater f => f prevParams
  | P.Value v => v
  end.

(** [{ length: -5 }] *)
Definition lengthMinusFive : P.PartialParams :=
  P.mkPartial (Some (lit (-5))) None None None None None None None None.

(** [{ startingAngle: 90 }] *)
Definition startingAngle90 : P.PartialParams :=
  P.mkPartial None None (Some (lit 90)) None None None None None None.

(** *** Worlds *)

(** The seven configuration keys of a parameter object. *)
Definition configuration (p : P.SimulatorParams) : list number :=
  [P.length p; P.mass p; P.startingAngle p; P.gravity p; P.damping p;
   P.timeInterval p; P.simulationSpeed p].

(** [params.timeInterval] has been through the clamp: NaN or at least 0.001. *)
Definition timeIntervalFloored (p : P.SimulatorParams) : Prop :=
  P.timeInterval p = NaN \/
  exists t, P.timeInterval p = Num t /\ (Q2Qc 0.001 <= t)%Qc.

(** What every reachable world satisfies:
    - [draw] writes into [params] in place, and [params] may be the object
      [defaultParams] itself, but only the two kinematic keys are written:
      the configuration keys of [defaultParams] stay the documented ones;
    - [params.timeInterval] has been through the clamp (or is a default);
    - the effect's [dt] was computed from the current [params]. *)
Definition wellFormed (w : App.World) : Prop :=
  configuration (Provider.defaultParams (App.context w)) =
    configuration P.defaultParams /\
  timeIntervalFloored (Provider.params (App.context w)) /\
  V.dt (App.locals w) =
    Math_max (P.timeInterval (Provider.params (App.context w))) (lit 0.001).

(** The frame time [draw] measures at [timestamp]. *)
Definition frameTimeAt (timestamp : number) (l : V.Locals) : number :=
  (timestamp - match V.lastTimestamp l with None => timestamp | Some t => t end)
  / lit 1000.

(** The world with [lastTimestamp = timestamp]. *)
Definition stamped (timestamp : number) (w : App.World) : App.World := {|
  App.context := App.context w;
  App.canvasWidth := App.canvasWidth w;
  App.canvasHeight := App.canvasHeight w;
  App.resetTrigger := App.resetTrigger w;
  App.locals := V.setLastTimestamp timestamp (App.locals w)
|}.

(** What a reset leaves behind. *)
Definition afterReset (w : App.World) : Prop :=
  Provider.isPlaying (App.context w) = false /\
  V.accumulator (App.locals w) = lit 0 /\
  Provider.params (App.context w) = P.defaultParams /\
  App.kinematicState w =
    ((P.startingAngle (Provider.params (App.context w)) * Math_PI) / lit 180,
     lit 0).

(** The effect has just (re)started: angle from [startingAngle], velocity
    and accumulator zero. *)
Definition reinitialised (w : App.World) : Prop :=
  App.kinematicState w =
    ((P.startingAngle (Provider.params (App.context w)) * Math_PI) / lit 180,
     lit 0) /\
  V.accumulator (App.locals w) = lit 0.

(** *** Concrete inputs *)

(** A rational stand-in for the sine (the first two terms of its series).
    It only serves to instantiate statements at concrete inputs; the
    theorems hold for every [sin]. *)
Definition sinSeries2 (x : Qc) : Qc := (x - x * x * x / Q2Qc 6)%Qc.

(** 45 degrees in radians, as the effect computes it. *)
Definition angle0 : Qc :=
  (Q2Qc 45 * Q2Qc (884279719003555 # 281474976710656) / Q2Qc 180)%Qc.

(** The scenario of section 8: default parameters, the canvas resized to
    the given size, paused at first, then [play()]. *)
Definition scenario (cw ch : Qc) : App.World :=
  App.play (App.setCanvasSize (Num cw) (Num ch) App.initial).

(** The values computed from the formulas alone: ten semi-implicit Euler
    steps of size 0.3 from (45 degrees in radians, 0), with gravity 9.81 and
    the length [L]. *)
Definition reference (sin : Qc -> Qc) (L : number) : Spec.State :=
  Nat.iter 10 (Spec.semiImplicitEuler sin (lit 9.81) L (lit 0.3))
    ((lit 45 * Math_PI) / lit 180, lit 0).

(** The default parameters with gravity set to 1.62 in the settings panel,
    then Play. *)
Definition moonPlaying : App.World :=
  App.play
    (App.setParams
       (SettingsPanel.handleInputChange SettingsPanel.gravity (lit 1.62))
       App.initial).

(** The gravity field of the settings panel emptied
    ([Number.parseFloat("")] is NaN), then Play. *)
Definition gravityNaNPlaying : App.World :=
  App.play
    (App.setParams (SettingsPanel.handleInputChange SettingsPanel.gravity NaN)
       App.initial).

(** The time-interval field of the settings panel emptied, then Play. *)
Definition timeIntervalNaNPlaying : App.World :=
  App.play
    (App.setParams
       (SettingsPanel.handleInputChange SettingsPanel.timeInterval NaN)
       App.initial).

(** *** Bounds for the scenario *)

(** [x] to the power [n]. *)
Fixpoint power (x : Q) (n : nat) : Q :=
  match n with
  | O => 1
  | S n' => (x * power x n')%Q
  end.

(** The Taylor polynomial of the sine of degree 7. *)
Definition taylor7 (x : Q) : Q :=
  (x - power x 3 / 6 + power x 5 / 120 - power x 7 / 5040)%Q.

(** What a statement about values needs to know of the sine: on [[-1, 1]]
    it is within 3/1000000 of its Taylor polynomial of degree 7.  (The
    remainder there is at most 1/9!, which is below 2.8/1000000, so the
    sine has this property, and so has every function within 2/10000000 of
    it, [Math.sin] among them.) *)
Definition nearTaylor (sin : Qc -> Qc) : Prop :=
  forall x : Qc,
    (-1 <= this x)%Q -> (this x <= 1)%Q ->
    (taylor7 (this x) - (3 # 1000000) <= this (sin x))%Q /\
    (this (sin x) <= taylor7 (this x) + (3 # 1000000))%Q.

(** The Taylor polynomial itself as a stand-in for the sine at concrete
    inputs. *)
Definition taylorSine (x : Qc) : Qc := Q2Qc (taylor7 (this x)).

(** Bounds for an angle and a velocity. *)
Record Box : Type := mkBox { alo : Q; ahi : Q; vlo : Q; vhi : Q }.

(** The state lies within the bounds. *)
Definition inBox (b : Box) (s : Spec.State) : Prop :=
  exists a v : Qc,
    s = (Num a, Num v) /\
    (alo b <= this a)%Q /\ (this a <= ahi b)%Q /\
    (vlo b <= this v)%Q /\ (this v <= vhi b)%Q.

(** Rounding to nine decimals, downwards and upwards. *)
Definition roundDown (q : Q) : Q := Qfloor (q * 1000000000)%Q # 1000000000.
Definition roundUp (q : Q) : Q := Qceiling (q * 1000000000)%Q # 1000000000.

(** Bounds after one semi-implicit Euler step of size [h] with
    [k = gravity / length * h], good for every sine that is [nearTaylor];
    none when the angle may leave [[-1, 1]]. *)
Definition stepBox (k h : Q) (b : Box) : option Box :=
  if Qle_bool (-1) (alo b) && Qle_bool (ahi b) 1 then
    let slo := (taylor7 (alo b) - (3 # 1000000))%Q in
    let shi := (taylor7 (ahi b) + (3 # 1000000))%Q in
    let vlo' := roundDown (vlo b - k * shi)%Q in
    let vhi' := roundUp (vhi b - k * slo)%Q in
    Some (mkBox (roundDown (alo b + h * vlo')%Q) (roundUp (ahi b + h * vhi')%Q)
            vlo' vhi')
  else None.

(** Bounds after [n] steps. *)
Fixpoint stepsBox (n : nat) (k h : Q) (b : Box) : option Box :=
  match n with
  | O => Some b
  | S n' =>
      match stepBox k h b with
      | Some b' => stepsBox n' k h b'
      | None => None
      end
  end.

(** The start of the scenario: 45 degrees, at rest. *)
Definition startBox : Box := mkBox (this angle0) (this angle0) 0 0.

(** *** The store's minimums *)

(** No clamped key of [p] compares below its entry of [MIN_SAFE_VALUES]. *)
Definition respectsMinimums (p : P.SimulatorParams) : Prop :=
  (P.length p <? P.MIN_SAFE_VALUES.length) = false /\
  (P.mass p <? P.MIN_SAFE_VALUES.mass) = false /\
  (P.gravity p <? P.MIN_SAFE_VALUES.gravity) = false /\
  (P.damping p <? P.MIN_SAFE_VALUES.damping) = false /\
  (P.timeInterval p <? P.MIN_SAFE_VALUES.timeInterval) = false /\
  (P.simulationSpeed p <? P.MIN_SAFE_VALUES.simulationSpeed) = false.

(** [{ startingAngle: v }] *)
Definition startingAngleOnly (v : number) : P.PartialParams :=
  P.mkPartial None None (Some v) None None None None None None.

(** *** Frames *)

(** The events that start the main effect again. *)
Definition restarts (e : App.Event) : bool :=
  match e with
  | App.SetParams _ | App.ResetParams | App.HandleReset
  | App.SetCanvasSize _ _ | App.ImageChanged => true
  | App.AnimationFrame _ | App.Advance _ | App.SetIsPlaying _ => false
  end.

(** The main effect has just started: its variables are the initial ones
    for the current [params].  This is so after construction and after each
    of the events that start the effect again, until the first frame. *)
Definition justStarted (w : App.World) : Prop :=
  App.locals w = V.initLocals (Provider.params (App.context w)).

(** The effect's [simulationSpeed] was computed from the current [params]. *)
Definition speedFromParams (w : App.World) : Prop :=
  V.simulationSpeed (App.locals w) =
  Math_max (P.simulationSpeed (Provider.params (App.context w))) (lit 0.1).

(** Everything a step reads is a number. *)
Definition numericSetup (w : App.World) : Prop :=
  isNum (P.gravity (Provider.params (App.context w))) /\
  isNum (P.damping (Provider.params (App.context w))) /\
  isNum (V.scaledLength (Provider.params (App.context w))
           (App.canvasWidth w) (App.canvasHeight w)) /\
  isNum (V.dt (App.locals w)) /\
  isNum (V.simulationSpeed (App.locals w)).

(** The pendulum hangs straight down and does not move. *)
Definition atRest (w : App.World) : Prop :=
  App.kinematicState w = (lit 0, lit 0).

(** The starting angle set to 0 in the settings panel, then Play. *)
Definition restPlaying : App.World :=
  App.play
    (App.setParams
       (SettingsPanel.handleInputChange SettingsPanel.startingAngle (lit 0))
       App.initial).

(** The default parameters with the mass set to 5 in the settings panel,
    then Play. *)
Definition heavyPlaying : App.World :=
  App.play
    (App.setParams (SettingsPanel.handleInputChange SettingsPanel.mass (lit 5))
       App.initial).

(** *** Mirror images *)

(** The state mirrored at the vertical: angle and velocity negated. *)
Definition mirrored (s : Spec.State) : Spec.State := (- fst s, - snd s).

(** The effect's variables with the mirrored state. *)
Definition mirror (l : V.Locals) : V.Locals :=
  V.setKinematics (- V.currentAngle l) (- V.currentVelocity l) l.

(** *** The previews of a tooltip *)

(** The keys no preview reads: the mass and the two image settings. *)
Definition purelyVisual (paramKey : SimulationTooltip.ParamKey) : bool :=
  match paramKey with
  | SimulationTooltip.param SettingsPanel.mass
  | SimulationTooltip.rotation | SimulationTooltip.scale => true
  | _ => false
  end.

(** Angle and velocity of a preview. *)
Definition previewState (p : SimulationTooltip.Pendulum) : Spec.State :=
  (SimulationTooltip.angle p, SimulationTooltip.velocity p).

(** The accumulator of a preview is NaN or below [dt]. *)
Definition previewDrained (dt : Qc) (p : SimulationTooltip.Pendulum) : Prop :=
  SimulationTooltip.accumulator p = NaN \/
  exists a, SimulationTooltip.accumulator p = Num a /\ (a < dt)%Qc.

(** *** The view *)

(** The zoom factor is a number between 0.5 and 5. *)
Definition zoomInRange (s : useZoomAndPan.State) : Prop :=
  exists z,
    useZoomAndPan.zoom s = Num z /\ (Q2Qc 0.5 <= z)%Qc /\ (z <= Q2Qc 5)%Qc.

(** A wheel event carries a number, as every wheel event of a browser does. *)
Definition numericWheel (e : View.Event) : Prop :=
  match e with
  | View.Wheel deltaY => isNum deltaY
  | _ => True
  end.

(** A mouse move to the given position. *)
Definition moveTo (p : number * number) : View.Event :=
  View.MouseMove (fst p) (snd p).

(** *** Tooltips *)

(** An open tooltip is the one [activeTooltipKey] names. *)
Definition openIsActive (s : TooltipTriggerIcon.State) : Prop :=
  Forall
    (fun i =>
       TooltipTriggerIcon.isTooltipOpen i = true ->
       TooltipTriggerIcon.activeTooltipKey s =
         Some (TooltipTriggerIcon.paramKey i))
    (TooltipTriggerIcon.instances s).

(* ================================================================== *)
(** ** The accumulator in binary64

    The number of turns of the loop depends on the accumulator alone, whose
    arithmetic needs no sine; so that part of [draw] can also be run on
    IEEE 754 binary64 numbers, the numbers of JavaScript. *)

Module Binary64.

(** [while (accumulator >= dt) { ...; accumulator -= dt }]: the number of
    turns and the accumulator left. *)
Fixpoint turns (fuel : nat) (accumulator dt : float) : option (nat * float) :=
  if PrimFloat.leb dt accumulator then
    match fuel with
    | O => None
    | S fuel' =>
        match turns fuel' (PrimFloat.sub accumulator dt) dt with
        | Some (n, a) => Some (S n, a)
        | None => None
        end
    end
  else Some (O, accumulator).

(** The nearest binary64 numbers to 0.1 and 0.01. *)
Definition tenth : float := 0x1.999999999999ap-4%float.
Definition hundredth : float := 0x1.47ae147ae147bp-7%float.

(** The nearest binary64 number to 0.03, which is what
    [(timestamp - lastTimestamp) / 1000] gives for two frames 30 ms apart. *)
Definition threeHundredths : float := 0x1.eb851eb851eb8p-6%float.

(** [frameTime] of [draw]: [(timestamp - lastTimestamp) / 1000]. *)
Definition frameTime (timestamp lastTimestamp : float) : float :=
  PrimFloat.div (PrimFloat.sub timestamp lastTimestamp) 1000%float.

(** The frames of [draw] while playing, for the timestamps that follow
    [lastTimestamp]: the total number of turns and the accumulator left. *)
Fixpoint frames (fuel : nat) (dt : float) (timestamps : list float)
    (lastTimestamp accumulator : float) (count : nat) : option (nat * float) :=
  match timestamps with
  | [] => Some (count, accumulator)
  | timestamp :: rest =>
      match turns fuel
              (PrimFloat.add accumulator (frameTime timestamp lastTimestamp))
              dt with
      | Some (n, accumulator') =>
          frames fuel dt rest timestamp accumulator' (count + n)
      | None => None
      end
  end.

End Binary64.

(* ================================================================== *)
(** ** Facts about numbers *)

Lemma this_add (x y : Qc) : (this (x + y)%Qc == this x + this y)%Q.
Proof. unfold Qcplus, Q2Qc. cbn [this]. apply Qred_correct. Qed.

Lemma this_sub (x y : Qc) : (this (x - y)%Qc == this x - this y)%Q.
Proof.
  unfold Qcminus, Qcplus, Qcopp, Q2Qc. cbn [this].
  rewrite !Qred_correct. reflexivity.
Qed.

Lemma this_mul (x y : Qc) : (this (x * y)%Qc == this x * this y)%Q.
Proof. unfold Qcmult, Q2Qc. cbn [this]. apply Qred_correct. Qed.

Lemma this_Q2Qc (x : Q) : (this (Q2Qc x) == x)%Q.
Proof. unfold Q2Qc. cbn [this]. apply Qred_correct. Qed.

(** Order goals on [Qc], sent to [lra] over [Q]. *)
Lemma this_opp (x : Qc) : (this (- x)%Qc == - this x)%Q.
Proof. unfold Qcopp, Q2Qc. cbn [this]. apply Qred_correct. Qed.

Lemma this_div (x y : Qc) : (this (x / y)%Qc == this x / this y)%Q.
Proof.
  unfold Qcdiv, Qcmult, Qcinv, Q2Qc. cbn [this].
  rewrite !Qred_correct. reflexivity.
Qed.

Ltac qc_order :=
  unfold Qcle, Qclt in *;
  repeat rewrite ?this_add, ?this_sub, ?this_mul, ?this_Q2Qc in *;
  lra.

(** Closed equations between canonical rationals. *)
Ltac qc_eval := apply Qc_is_canon; vm_compute; reflexivity.

Lemma ge_Num (a b : Qc) : (Num a >=? Num b) = true <-> (b <= a)%Qc.
Proof. unfold ge, Qcle. apply Qle_bool_iff. Qed.

Lemma ge_Num_false (a b : Qc) : (Num a >=? Num b) = false <-> (a < b)%Qc.
Proof.
  unfold ge, Qclt. destruct (Qle_bool b a) eqn:E.
  - apply Qle_bool_iff in E. split; [discriminate | intros H; exfalso; lra].
  - split; [intros _ | reflexivity].
    destruct (Qlt_le_dec a b) as [H | H]; [exact H |].
    apply Qle_bool_iff in H. congruence.
Qed.

Lemma lt_Num (a b : Qc) : (Num a <? Num b) = true <-> (a < b)%Qc.
Proof.
  unfold lt. rewrite negb_true_iff. apply (ge_Num_false a b).
Qed.

Lemma Math_max_Num (a b : Qc) :
  exists c, Math_max (Num a) (Num b) = Num c /\
            (a <= c)%Qc /\ (b <= c)%Qc /\ (c = a \/ c = b).
Proof.
  unfold Math_max. destruct (Qle_bool a b) eqn:E.
  - apply Qle_bool_iff in E. exists b. repeat split; auto; unfold Qcle; lra.
  - exists a. repeat split; auto; unfold Qcle; try lra.
    destruct (Qlt_le_dec b a) as [H | H]; [lra |].
    apply Qle_bool_iff in H. congruence.
Qed.

Lemma Math_max_ge (a b : Qc) :
  (b <= a)%Qc -> Math_max (Num a) (Num b) = Num a.
Proof.
  intros H. unfold Math_max. destruct (Qle_bool a b) eqn:E; [| reflexivity].
  apply Qle_bool_iff in E. f_equal. apply Qc_is_canon.
  unfold Qcle in H. lra.
Qed.

Lemma Math_max_lt (a b : Qc) :
  (a < b)%Qc -> Math_max (Num a) (Num b) = Num b.
Proof.
  intros H. unfold Math_max. destruct (Qle_bool a b) eqn:E; [reflexivity |].
  exfalso. assert (Qle_bool a b = true); [| congruence].
  apply Qle_bool_iff. unfold Qclt in H. lra.
Qed.

Lemma mul_assoc (x y z : number) : x * y * z = x * (y * z).
Proof. destruct x, y, z; cbn; try reflexivity. f_equal. ring. Qed.

Lemma mul_comm (x y : number) : x * y = y * x.
Proof. destruct x, y; cbn; try reflexivity. f_equal. ring. Qed.

Lemma half_step (k h : number) : k * h / lit 2 = (h / lit 2) * k.
Proof.
  destruct k, h; cbn; try reflexivity. f_equal. field. discriminate.
Qed.

(* ================================================================== *)
(** ** The integration step *)

Section Integration.

Variable sin : Qc -> Qc.

Lemma integrate_euler params scaledLength l :
  (P.damping params === lit 0) = true ->
  kinematics (V.integrate sin params scaledLength l) =
  Spec.semiImplicitEuler sin (stepGravity params) scaledLength
    (effectiveStep l) (kinematics l).
Proof.
  intros Hd. unfold V.integrate. rewrite Hd.
  unfold kinematics, Spec.semiImplicitEuler, effectiveStep, stepGravity.
  cbn [V.setKinematics V.currentAngle V.currentVelocity].
  rewrite !(mul_assoc _ (V.dt l) (V.simulationSpeed l)).
  reflexivity.
Qed.

Lemma integrate_rk4 params scaledLength l :
  (P.damping params === lit 0) = false ->
  kinematics (V.integrate sin params scaledLength l) =
  Spec.rk4Step sin (stepGravity params) scaledLength (P.damping params)
    (effectiveStep l) (kinematics l).
Proof.
  intros Hd. unfold V.integrate. rewrite Hd.
  unfold kinematics, Spec.rk4Step, Spec.RK4, Spec.pendulum, Spec.vadd,
    Spec.vscale, effectiveStep, stepGravity, V.acceleration, Spec.acceleration.
  cbn [V.setKinematics V.currentAngle V.currentVelocity fst snd].
  rewrite !half_step.
  rewrite !(mul_comm _ (V.dt l * V.simulationSpeed l)).
  reflexivity.
Qed.

Lemma integrate_frame params scaledLength l :
  V.integrate sin params scaledLength l =
  V.setKinematics (fst (kinematics (V.integrate sin params scaledLength l)))
    (snd (kinematics (V.integrate sin params scaledLength l))) l.
Proof.
  unfold V.integrate.
  destruct (P.damping params === lit 0); reflexivity.
Qed.

Lemma integrate_kinematics params scaledLength l :
  kinematics (V.integrate sin params scaledLength l) =
  Spec.step sin (P.damping params) (stepGravity params) scaledLength
    (effectiveStep l) (kinematics l).
Proof.
  unfold Spec.step.
  destruct (P.damping params === lit 0) eqn:Hd.
  - apply integrate_euler, Hd.
  - apply integrate_rk4, Hd.
Qed.

(** C2. Which scheme a step uses depends on [params.damping] alone.
    With [damping === 0] the step is semi-implicit Euler: the velocity is
    advanced first,
    [velocity += (-gravity / L) * sin(angle) * effectiveStep], and the angle
    then uses the new velocity, [angle += velocity * effectiveStep].
    Otherwise it is the classical RK4 step of the system (angle' = velocity,
    velocity' = (-gravity / L) * sin(angle) - damping * velocity), combined
    with the weights 1, 2, 2, 1 over six for the angle and for the velocity
    alike.  In both cases gravity is [Math.max(gravity, 0.01)], L is the
    length the step divides by, [effectiveStep] is [dt * simulationSpeed],
    and nothing but angle and velocity changes. *)
Theorem integrate_is_spec_step params scaledLength l :
  V.integrate sin params scaledLength l =
    V.setKinematics
      (fst (Spec.step sin (P.damping params) (stepGravity params) scaledLength
              (effectiveStep l) (kinematics l)))
      (snd (Spec.step sin (P.damping params) (stepGravity params) scaledLength
              (effectiveStep l) (kinematics l)))
      l /\
  ((P.damping params === lit 0) = true ->
   V.currentVelocity (V.integrate sin params scaledLength l) =
     V.currentVelocity l +
     (- stepGravity params / scaledLength) * Math_sin sin (V.currentAngle l)
       * effectiveStep l /\
   V.currentAngle (V.integrate sin params scaledLength l) =
     V.currentAngle l +
     V.currentVelocity (V.integrate sin params scaledLength l) * effectiveStep l) /\
  ((P.damping params === lit 0) = false ->
   kinematics (V.integrate sin params scaledLength l) =
     Spec.RK4
       (fun y =>
          (snd y,
           (- stepGravity params / scaledLength) * Math_sin sin (fst y)
             - P.damping params * snd y))
       (effectiveStep l) (kinematics l)).
Proof.
  split; [| split].
  - rewrite integrate_frame, integrate_kinematics. reflexivity.
  - intros Hd. pose proof (integrate_euler params scaledLength l Hd) as H.
    pose proof (f_equal fst H) as Ha. pose proof (f_equal snd H) as Hv.
    unfold kinematics, Spec.semiImplicitEuler in Ha, Hv.
    cbn [fst snd] in Ha, Hv. rewrite Ha, Hv. split; reflexivity.
  - intros Hd. rewrite (integrate_rk4 params scaledLength l Hd). reflexivity.
Qed.

End Integration.

(* ================================================================== *)
(** ** The fixed-step loop *)

Lemma millis_decrease (a d : Qc) :
  (Q2Qc 0.001 <= d)%Qc -> (d <= a)%Qc ->
  (Z.to_nat (Qfloor (this (a - d)%Qc * 1000)) <
   Z.to_nat (Qfloor (this a * 1000)))%nat.
Proof.
  intros Hd Ha.
  assert (H1 : (1 <= Qfloor (this a * 1000))%Z).
  { rewrite <- (Qfloor_Z 1). apply Qfloor_resp_le.
    change (inject_Z 1) with 1%Q. qc_order. }
  assert (H2 : (Qfloor (this (a - d)%Qc * 1000) < Qfloor (this a * 1000))%Z).
  { rewrite Zlt_Qlt.
    apply Qle_lt_trans with (this (a - d)%Qc * 1000)%Q; [apply Qfloor_le |].
    apply Qle_lt_trans with (this a * 1000 - 1)%Q; [qc_order |].
    pose proof (Qlt_floor (this a * 1000)) as H.
    rewrite inject_Z_plus in H. change (inject_Z 1) with 1%Q in H. lra. }
  lia.
Qed.

Section Loop.

Variable sin : Qc -> Qc.
Variable params : P.SimulatorParams.
Variable scaledLength : number.

Let body := V.loopBody sin params scaledLength.
Let loop := fun fuel => V.whileLoop sin fuel params scaledLength.

Lemma integrate_dt l : V.dt (V.integrate sin params scaledLength l) = V.dt l.
Proof. rewrite integrate_frame. reflexivity. Qed.

Lemma integrate_simulationSpeed l :
  V.simulationSpeed (V.integrate sin params scaledLength l) = V.simulationSpeed l.
Proof. rewrite integrate_frame. reflexivity. Qed.

Lemma integrate_accumulator l :
  V.accumulator (V.integrate sin params scaledLength l) = V.accumulator l.
Proof. rewrite integrate_frame. reflexivity. Qed.

Lemma loopBody_dt l : V.dt (body l) = V.dt l.
Proof. unfold body, V.loopBody. cbn. apply integrate_dt. Qed.

Lemma loopBody_simulationSpeed l :
  V.simulationSpeed (body l) = V.simulationSpeed l.
Proof. unfold body, V.loopBody. cbn. apply integrate_simulationSpeed. Qed.

(** Each turn takes exactly [dt] off the accumulator. *)
Lemma loopBody_accumulator l :
  V.accumulator (body l) = V.accumulator l - V.dt l.
Proof.
  unfold body, V.loopBody. cbn.
  rewrite integrate_dt, integrate_accumulator. reflexivity.
Qed.

Lemma loopBody_kinematics l :
  kinematics (body l) =
  Spec.step sin (P.damping params) (stepGravity params) scaledLength
    (effectiveStep l) (kinematics l).
Proof.
  unfold body, V.loopBody, kinematics. cbn.
  apply integrate_kinematics.
Qed.

(** The loop stops only when its condition is false, and keeps whatever the
    body keeps. *)
Lemma whileLoop_invariant (I : V.Locals -> Prop) :
  (forall l, I l -> (V.accumulator l >=? V.dt l) = true -> I (body l)) ->
  forall fuel l l',
    I l -> loop fuel l = Some l' ->
    I l' /\ (V.accumulator l' >=? V.dt l') = false.
Proof.
  intros Hbody fuel. induction fuel as [| fuel IH]; intros l l' Hl Hrun.
  - cbn in Hrun. destruct (V.accumulator l >=? V.dt l) eqn:E; [discriminate |].
    injection Hrun as <-. auto.
  - cbn in Hrun. destruct (V.accumulator l >=? V.dt l) eqn:E.
    + apply (IH (body l)); [apply Hbody; assumption | exact Hrun].
    + injection Hrun as <-. auto.
Qed.

Lemma whileLoop_dt fuel l l' : loop fuel l = Some l' -> V.dt l' = V.dt l.
Proof.
  intros H.
  apply (whileLoop_invariant (fun x => V.dt x = V.dt l)) in H;
    [tauto | | reflexivity].
  intros x Hx _. rewrite loopBody_dt. exact Hx.
Qed.

(** More fuel does not change the outcome. *)
(** Termination: with [dt] floored at 0.001, [fuelFor] turns are enough. *)
Lemma whileLoop_terminates l :
  dtFloored l ->
  forall fuel, (fuelFor (V.accumulator l) <= fuel)%nat ->
  exists l', loop fuel l = Some l'.
Proof.
  intros Hdt fuel. revert l Hdt.
  induction fuel as [| fuel IH]; intros l Hdt Hfuel.
  - destruct (V.accumulator l) as [| a] eqn:Ea; [| cbn in Hfuel; lia].
    exists l. cbn. rewrite Ea. reflexivity.
  - destruct (V.accumulator l >=? V.dt l) eqn:E.
    + destruct (V.accumulator l) as [| a] eqn:Ea; [discriminate |].
      destruct Hdt as [Hd | (d & Hd & Hmin)]; rewrite Hd in E; [discriminate |].
      apply ge_Num in E.
      destruct (IH (body l)) as (l' & Hl').
      * right. exists d. rewrite loopBody_dt. auto.
      * rewrite loopBody_accumulator, Ea, Hd. cbn [sub fuelFor].
        pose proof (millis_decrease a d Hmin E). cbn [fuelFor] in Hfuel. lia.
      * exists l'. cbn. rewrite Ea, Hd.
        replace (Num a >=? Num d) with true by (symmetry; apply ge_Num; exact E).
        exact Hl'.
    + exists l. cbn. rewrite E. reflexivity.
Qed.

Lemma iter_S (A : Type) (f : A -> A) n x :
  Nat.iter (S n) f x = f (Nat.iter n f x).
Proof. reflexivity. Qed.

Lemma iter_shift (A : Type) (f : A -> A) n x :
  Nat.iter n f (f x) = f (Nat.iter n f x).
Proof.
  induction n as [| n IH]; [reflexivity |].
  rewrite !iter_S, IH. reflexivity.
Qed.

Lemma whileLoop_makesTurns n l l' :
  makesTurns sin params scaledLength n l l' ->
  forall fuel, (n <= fuel)%nat -> loop fuel l = Some l'.
Proof.
  revert l. induction n as [| n IH]; intros l (Heq & Hpre & Hpost) fuel Hle.
  - cbn in Heq. subst l'. destruct fuel; cbn; rewrite Hpost; reflexivity.
  - destruct fuel as [| fuel]; [lia |].
    pose proof (Hpre O ltac:(lia)) as H0. cbn [Nat.iter nat_rect] in H0.
    unfold loop in *. cbn [V.whileLoop]. rewrite H0.
    apply IH; [| lia]. split; [| split].
    + rewrite Heq, iter_shift. reflexivity.
    + intros k Hk. rewrite iter_shift. apply (Hpre (S k)). lia.
    + exact Hpost.
Qed.

Lemma iter_body_dt n l : V.dt (Nat.iter n body l) = V.dt l.
Proof.
  induction n as [| n IH]; [reflexivity |].
  rewrite iter_S, loopBody_dt. exact IH.
Qed.

Lemma iter_body_simulationSpeed n l :
  V.simulationSpeed (Nat.iter n body l) = V.simulationSpeed l.
Proof.
  induction n as [| n IH]; [reflexivity |].
  rewrite iter_S, loopBody_simulationSpeed. exact IH.
Qed.

Lemma iter_body_accumulator n l :
  V.accumulator (Nat.iter n body l) = drained n (V.accumulator l) (V.dt l).
Proof.
  induction n as [| n IH]; [reflexivity |].
  unfold drained in *.
  rewrite !iter_S, loopBody_accumulator, iter_body_dt, IH. reflexivity.
Qed.

Lemma iter_body_kinematics n l :
  kinematics (Nat.iter n body l) =
  Nat.iter n
    (Spec.step sin (P.damping params) (stepGravity params) scaledLength
       (effectiveStep l))
    (kinematics l).
Proof.
  induction n as [| n IH]; [reflexivity |].
  rewrite !iter_S, loopBody_kinematics, IH. unfold effectiveStep.
  rewrite iter_body_dt, iter_body_simulationSpeed. reflexivity.
Qed.

End Loop.

(** One frame of 0.01 s with [dt] 0.01 and an empty accumulator: one turn. *)
Lemma one_turn (sin : Qc -> Qc) params L l1 :
  V.accumulator l1 = lit 0 + lit 0.01 ->
  V.dt l1 = Math_max (lit 0.01) (lit 0.001) ->
  makesTurns sin params L 1 l1 (V.loopBody sin params L l1).
Proof.
  intros Ha Hd. split; [reflexivity |]. split.
  - intros k Hk. destruct k as [| k]; [| lia].
    cbn [Nat.iter nat_rect]. rewrite Ha, Hd. vm_compute. reflexivity.
  - rewrite (loopBody_accumulator sin), (loopBody_dt sin), Ha, Hd. vm_compute. reflexivity.
Qed.

(* ================================================================== *)
(** ** The parameter store *)

Lemma Math_max_clampedTo (m : Qc) (written : number) :
  clampedTo (Num m) written (Math_max written (Num m)).
Proof.
  unfold clampedTo. split; [reflexivity |].
  destruct written as [| a]; cbn [Math_max lt ge].
  - repeat split; intros; discriminate.
  - destruct (Qclt_le_dec a m) as [Hlt | Hge].
    + fold (Math_max (Num a) (Num m)). rewrite (Math_max_lt a m Hlt).
      split; [| split].
      * change ((Num m <? Num m) = false).
        destruct (Num m <? Num m) eqn:E; [| reflexivity].
        apply lt_Num in E. exfalso. unfold Qclt in E. lra.
      * reflexivity.
      * intros H. apply (ge_Num a m) in H. exfalso. unfold Qcle, Qclt in *. lra.
    + fold (Math_max (Num a) (Num m)). rewrite (Math_max_ge a m Hge).
      split; [| split].
      * change ((Num a <? Num m) = false).
        destruct (Num a <? Num m) eqn:E; [| reflexivity].
        apply lt_Num in E. exfalso. unfold Qcle, Qclt in *. lra.
      * intros H. apply (lt_Num a m) in H. exfalso. unfold Qcle, Qclt in *. lra.
      * reflexivity.
Qed.

(** C5. Every write through [setValidatedParams] is total (no error) and
    leaves each of the six keys that have a safe minimum clamped to it:
    length to 1, mass to 0.1, gravity to 0.01, damping to 0, timeInterval to
    0.001, simulationSpeed to 0.1, where the written value is the update's
    key if present and the previous value otherwise.  [startingAngle] (like
    the two kinematic keys) is stored as written.  In particular writing
    [{length: -5}] stores length 1. *)
Theorem setValidatedParams_clamps (newParams : P.SetStateAction)
    (prevParams : P.SimulatorParams) :
  let u := updateOf newParams prevParams in
  let r := P.setValidatedParams newParams prevParams in
  clampedTo (lit 1) (P.length' u ?? P.length prevParams) (P.length r) /\
  clampedTo (lit 0.1) (P.mass' u ?? P.mass prevParams) (P.mass r) /\
  clampedTo (lit 0.01) (P.gravity' u ?? P.gravity prevParams) (P.gravity r) /\
  clampedTo (lit 0) (P.damping' u ?? P.damping prevParams) (P.damping r) /\
  clampedTo (lit 0.001) (P.timeInterval' u ?? P.timeInterval prevParams)
    (P.timeInterval r) /\
  clampedTo (lit 0.1) (P.simulationSpeed' u ?? P.simulationSpeed prevParams)
    (P.simulationSpeed r) /\
  P.startingAngle r = P.startingAngle' u ?? P.startingAngle prevParams /\
  P.currentAngle r = P.currentAngle' u ?? P.currentAngle prevParams /\
  P.currentVelocity r = P.currentVelocity' u ?? P.currentVelocity prevParams /\
  P.length (P.setValidatedParams (P.Value lengthMinusFive) prevParams) = lit 1.
Proof.
  cbv zeta. unfold P.setValidatedParams.
  fold (updateOf newParams prevParams).
  cbn [P.validatedParams P.length P.mass P.gravity P.damping P.timeInterval
       P.simulationSpeed P.startingAngle P.currentAngle P.currentVelocity].
  repeat (split; [first [apply Math_max_clampedTo | reflexivity] |]).
  reflexivity.
Qed.

(* ================================================================== *)
(** ** What every reachable world satisfies *)

Lemma timeIntervalFloored_default : timeIntervalFloored P.defaultParams.
Proof.
  right. exists (Q2Qc 0.01). split; [reflexivity |].
  unfold Qcle. vm_compute. discriminate.
Qed.

Lemma timeIntervalFloored_validated newParams prev :
  timeIntervalFloored (P.setValidatedParams newParams prev).
Proof.
  unfold timeIntervalFloored, P.setValidatedParams.
  cbn [P.validatedParams P.timeInterval].
  destruct (P.timeInterval' _ ?? P.timeInterval prev) as [| t];
    [left; reflexivity | right].
  destruct (Math_max_Num t (Q2Qc 0.001)) as (c & Hc & _ & Hle & _).
  exists c. split; [exact Hc | exact Hle].
Qed.

Lemma resetObject_default d :
  configuration d = configuration P.defaultParams ->
  P.resetObject d = P.defaultParams.
Proof.
  intros H. injection H as H1 H2 H3 H4 H5 H6 H7.
  unfold P.resetObject. rewrite H1, H2, H3, H4, H5, H6, H7. reflexivity.
Qed.

Lemma timeIntervalFloored_reset d :
  configuration d = configuration P.defaultParams ->
  timeIntervalFloored (P.resetObject d).
Proof.
  intros H. injection H as _ _ _ _ _ Hti _.
  unfold timeIntervalFloored. cbn [P.resetObject P.timeInterval]. rewrite Hti.
  apply timeIntervalFloored_default.
Qed.

Lemma writeKinematics_defaultParams a v c :
  configuration (Provider.defaultParams (Provider.writeKinematics a v c)) =
  configuration (Provider.defaultParams c).
Proof. unfold Provider.writeKinematics. destruct (Provider.paramsRef c); reflexivity. Qed.

Lemma writeKinematics_params a v c :
  Provider.params (Provider.writeKinematics a v c) =
  Provider.withKinematics a v (Provider.params c).
Proof.
  unfold Provider.writeKinematics, Provider.params.
  destruct (Provider.paramsRef c); reflexivity.
Qed.

Lemma wellFormed_rerunEffect c cw ch trigger :
  configuration (Provider.defaultParams c) = configuration P.defaultParams ->
  timeIntervalFloored (Provider.params c) ->
  wellFormed (App.rerunEffect c cw ch trigger).
Proof. intros H1 H2. repeat split; assumption. Qed.

Lemma wellFormed_initial : wellFormed App.initial.
Proof.
  apply wellFormed_rerunEffect; [reflexivity | apply timeIntervalFloored_default].
Qed.

Lemma wellFormed_dtFloored w : wellFormed w -> dtFloored (App.locals w).
Proof.
  intros (_ & Hti & Hdt). unfold dtFloored. rewrite Hdt.
  destruct Hti as [-> | (t & -> & Ht)]; [left; reflexivity | right].
  exists t. split; [apply Math_max_ge; exact Ht | exact Ht].
Qed.

Section Worlds.

Variable sin : Qc -> Qc.

(** What [advance] does, case by case. *)
Lemma advance_paused fuel frameTime w :
  Provider.isPlaying (App.context w) = false ->
  App.advance sin fuel frameTime w = Some w.
Proof.
  intros Hp. unfold App.advance, V.advance. rewrite Hp.
  destruct w; reflexivity.
Qed.

Lemma advance_playing fuel frameTime w w' :
  Provider.isPlaying (App.context w) = true ->
  App.advance sin fuel frameTime w = Some w' ->
  exists l',
    V.whileLoop sin fuel (Provider.params (App.context w))
      (V.scaledLength (Provider.params (App.context w))
         (App.canvasWidth w) (App.canvasHeight w))
      (V.setAccumulator (V.accumulator (App.locals w) + frameTime) (App.locals w))
    = Some l' /\
    w' = {| App.context :=
              Provider.writeKinematics (V.currentAngle l') (V.currentVelocity l')
                (App.context w);
            App.canvasWidth := App.canvasWidth w;
            App.canvasHeight := App.canvasHeight w;
            App.resetTrigger := App.resetTrigger w;
            App.locals := l' |}.
Proof.
  intros Hp. unfold App.advance, V.advance. rewrite Hp.
  destruct (V.whileLoop _ _ _ _ _) as [l' |]; [| discriminate].
  cbn. intros [= <-]. exists l'. split; reflexivity.
Qed.

Lemma advance_playing_runs fuel frameTime w l' :
  Provider.isPlaying (App.context w) = true ->
  V.whileLoop sin fuel (Provider.params (App.context w))
    (V.scaledLength (Provider.params (App.context w))
       (App.canvasWidth w) (App.canvasHeight w))
    (V.setAccumulator (V.accumulator (App.locals w) + frameTime) (App.locals w))
  = Some l' ->
  App.advance sin fuel frameTime w =
  Some {| App.context :=
            Provider.writeKinematics (V.currentAngle l') (V.currentVelocity l')
              (App.context w);
          App.canvasWidth := App.canvasWidth w;
          App.canvasHeight := App.canvasHeight w;
          App.resetTrigger := App.resetTrigger w;
          App.locals := l' |}.
Proof.
  intros Hp Hl. unfold App.advance, V.advance. rewrite Hp, Hl. reflexivity.
Qed.

Lemma draw_advance fuel timestamp w :
  App.draw sin fuel timestamp w =
  App.advance sin fuel (frameTimeAt timestamp (App.locals w)) (stamped timestamp w).
Proof. reflexivity. Qed.

Lemma wellFormed_stamped t w : wellFormed w -> wellFormed (stamped t w).
Proof. intros H. exact H. Qed.

Lemma wellFormed_advance fuel frameTime w w' :
  wellFormed w -> App.advance sin fuel frameTime w = Some w' -> wellFormed w'.
Proof.
  intros (Hc & Hti & Hdt) Hrun.
  destruct (Provider.isPlaying (App.context w)) eqn:Hp.
  - destruct (advance_playing _ _ _ _ Hp Hrun) as (l' & Hl' & ->).
    apply whileLoop_dt in Hl'. cbn [V.setAccumulator V.dt] in Hl'.
    unfold wellFormed, timeIntervalFloored. cbn [App.context App.locals].
    rewrite writeKinematics_defaultParams, writeKinematics_params.
    cbn [Provider.withKinematics P.timeInterval].
    repeat split; [exact Hc | exact Hti | congruence].
  - rewrite (advance_paused _ _ _ Hp) in Hrun. injection Hrun as <-.
    repeat split; assumption.
Qed.

Lemma wellFormed_step fuel e w w' :
  wellFormed w -> App.step sin fuel e w = Some w' -> wellFormed w'.
Proof.
  intros Hw Hstep. pose proof Hw as (Hc & Hti & Hdt).
  destruct e; cbn [App.step] in Hstep.
  - rewrite draw_advance in Hstep.
    eapply wellFormed_advance; [| exact Hstep]. apply wellFormed_stamped, Hw.
  - eapply wellFormed_advance; eassumption.
  - injection Hstep as <-. exact Hw.
  - injection Hstep as <-. apply wellFormed_rerunEffect;
      [exact Hc | apply timeIntervalFloored_validated].
  - injection Hstep as <-. apply wellFormed_rerunEffect;
      [exact Hc | apply timeIntervalFloored_reset, Hc].
  - injection Hstep as <-. apply wellFormed_rerunEffect;
      [exact Hc | apply timeIntervalFloored_reset, Hc].
  - injection Hstep as <-. apply wellFormed_rerunEffect; assumption.
  - injection Hstep as <-. apply wellFormed_rerunEffect; assumption.
Qed.

Lemma wellFormed_run fuel es :
  forall w w', wellFormed w -> App.run sin fuel es w = Some w' -> wellFormed w'.
Proof.
  induction es as [| e es IH]; intros w w' Hw Hrun; cbn in Hrun.
  - injection Hrun as <-. exact Hw.
  - destruct (App.step sin fuel e w) as [w1 |] eqn:E; [| discriminate].
    apply (IH w1); [eapply wellFormed_step; eassumption | exact Hrun].
Qed.

Lemma reachable_wellFormed w : App.reachable sin w -> wellFormed w.
Proof.
  intros (fuel & es & Hrun).
  eapply wellFormed_run; [apply wellFormed_initial | exact Hrun].
Qed.

Lemma reachable_initial : App.reachable sin App.initial.
Proof. exists O, []. reflexivity. Qed.

End Worlds.

(* ================================================================== *)
(** ** The accumulator when the time interval is not a number *)

Lemma reachable_moonPlaying sin : App.reachable sin moonPlaying.
Proof.
  exists O,
    [App.SetParams
       (SettingsPanel.handleInputChange SettingsPanel.gravity (lit 1.62));
     App.SetIsPlaying true].
  reflexivity.
Defined.

Lemma reachable_timeIntervalNaNPlaying sin :
  App.reachable sin timeIntervalNaNPlaying.
Proof.
  exists O,
    [App.SetParams
       (SettingsPanel.handleInputChange SettingsPanel.timeInterval NaN);
     App.SetIsPlaying true].
  reflexivity.
Qed.

(** C6. The accumulator does not always end below [timeInterval].  Empty
    the time-interval field of the settings panel
    ([Number.parseFloat] of the empty string is NaN, and [Math.max] passes
    NaN through the clamps of [handleInputChange] and [setValidatedParams])
    and press Play: the application is then in a world where
    [params.timeInterval] and the loop's [dt] are NaN and the accumulator is
    0.  There [advance(0.1)] returns, whatever the fuel, without a turn of
    the loop ([accumulator >= dt] is false); the accumulator is 0.1
    afterwards and 0.2 after a second call, and neither is below
    [timeInterval], since no number compares below NaN.  Angle and velocity
    stay where they were. *)
Theorem nan_timeInterval_accumulator_grows (sin : Qc -> Qc) (fuel : nat) :
  let w := timeIntervalNaNPlaying in
  App.reachable sin w /\
  P.timeInterval (Provider.params (App.context w)) = NaN /\
  V.dt (App.locals w) = NaN /\
  V.accumulator (App.locals w) = lit 0 /\
  exists w1 w2,
    App.advance sin fuel (lit 0.1) w = Some w1 /\
    V.accumulator (App.locals w1) = lit 0.1 /\
    (V.accumulator (App.locals w1) <?
       P.timeInterval (Provider.params (App.context w1))) = false /\
    App.advance sin fuel (lit 0.1) w1 = Some w2 /\
    V.accumulator (App.locals w2) = lit 0.2 /\
    (V.accumulator (App.locals w2) <?
       P.timeInterval (Provider.params (App.context w2))) = false /\
    App.kinematicState w2 = App.kinematicState w.
Proof.
  intros w. split; [apply reachable_timeIntervalNaNPlaying |].
  split; [reflexivity |]. split; [reflexivity |]. split; [reflexivity |].
  pose (w1 := match App.advance sin O (lit 0.1) w with
              | Some v => v
              | None => w
              end).
  pose (w2 := match App.advance sin O (lit 0.1) w1 with
              | Some v => v
              | None => w
              end).
  exists w1, w2.
  assert (H1 : App.advance sin fuel (lit 0.1) w = Some w1)
    by (destruct fuel; reflexivity).
  assert (H2 : App.advance sin fuel (lit 0.1) w1 = Some w2)
    by (destruct fuel; reflexivity).
  split; [exact H1 |].
  split; [unfold lit; cbn; f_equal; qc_eval |].
  split; [reflexivity |].
  split; [exact H2 |].
  split; [unfold lit; cbn; f_equal; qc_eval |].
  split; reflexivity.
Qed.

(* ================================================================== *)
(** ** The loop in binary64 *)


(* ================================================================== *)
(** ** Reset *)

Section Reset.

Variable sin : Qc -> Qc.

(** C8. From every reachable world, both resets of the application (the
    Reset button, [handleReset], and "Reset All", [resetParams]) stop play,
    zero the accumulator, make [params] the documented defaults (with
    [currentAngle] 45 degrees in radians and [currentVelocity] 0) and set
    the kinematic state to the starting angle in radians with velocity 0.
    A second reset changes nothing of this: the kinematic state is the same,
    and after [resetParams] the whole world is. *)
Theorem reset_idempotent (w : App.World) :
  App.reachable sin w ->
  afterReset (App.handleReset w) /\
  afterReset (App.resetParams w) /\
  App.kinematicState (App.handleReset (App.handleReset w)) =
    App.kinematicState (App.handleReset w) /\
  App.kinematicState (App.resetParams (App.resetParams w)) =
    App.kinematicState (App.resetParams w) /\
  App.resetParams (App.resetParams w) = App.resetParams w.
Proof.
  intros Hreach. apply reachable_wellFormed in Hreach.
  destruct Hreach as (Hc & _ & _).
  assert (Hd := resetObject_default _ Hc).
  unfold afterReset, App.handleReset, App.resetParams, App.kinematicState,
    App.rerunEffect, Provider.resetParams, Provider.setIsPlaying, Provider.params.
  cbn [App.context App.locals App.canvasWidth App.canvasHeight App.resetTrigger
       Provider.defaultParams Provider.ownObject Provider.paramsRef
       Provider.isPlaying V.initLocals V.accumulator V.currentAngle
       V.currentVelocity].
  rewrite Hd. repeat split.
Qed.

End Reset.

Lemma reset_idempotent_witness :
  App.reachable sinSeries2 moonPlaying /\
  afterReset (App.handleReset moonPlaying) /\
  App.kinematicState (App.handleReset (App.handleReset moonPlaying)) =
    App.kinematicState (App.handleReset moonPlaying).
Proof.
  pose proof (reset_idempotent sinSeries2 moonPlaying
                (reachable_moonPlaying sinSeries2)) as (H1 & _ & H3 & _).
  split; [apply reachable_moonPlaying |]. split; [exact H1 | exact H3].
Defined.

(* ================================================================== *)
(** ** Who changes the kinematic state *)

(** A parameter write is neither [advance] nor [reset], and it changes the
    kinematic state: on the freshly constructed application, writing
    [{startingAngle: 90}], directly or by typing 90 into the settings panel,
    moves the angle from 45 degrees (in radians) to 90 degrees (in
    radians). *)
Lemma set_changes_kinematicState :
  valueOf (fst (App.kinematicState App.initial))
    = Some (884279719003555 # 1125899906842624) /\
  valueOf (fst (App.kinematicState (App.set startingAngle90 App.initial)))
    = Some (884279719003555 # 562949953421312) /\
  App.kinematicState (App.set startingAngle90 App.initial)
    <> App.kinematicState App.initial /\
  App.kinematicState
    (App.setParams
       (SettingsPanel.handleInputChange SettingsPanel.startingAngle (lit 90))
       App.initial)
    = App.kinematicState (App.set startingAngle90 App.initial).
Proof.
  split; [vm_compute; reflexivity |]. split; [vm_compute; reflexivity |].
  split; [| reflexivity].
  intros H. apply (f_equal (fun s => valueOf (fst s))) in H.
  vm_compute in H. discriminate.
Qed.

Section Frame.

Variable sin : Qc -> Qc.

(** C9, as the code has it.  The kinematic state starts from [startingAngle]
    (in radians) with velocity 0 when the application is constructed, and it
    is set back to that, with the accumulator zeroed, every time the main
    effect of [PendulumVisualization] runs again: on both resets, on every
    parameter write through [setParams], and when the canvas size or an
    image changes.  Play and pause change neither the kinematic state nor
    the accumulator.  While paused, [advance] returns the world unchanged
    (no physics time is accumulated) and [draw] only records the timestamp.
    Every other change of the kinematic state happens inside
    [advance]/[draw] while playing. *)
Theorem kinematicState_frame :
  reinitialised App.initial /\
  (forall w, reinitialised (App.handleReset w)) /\
  (forall w, reinitialised (App.resetParams w)) /\
  (forall newParams w, reinitialised (App.setParams newParams w)) /\
  (forall cw ch w, reinitialised (App.setCanvasSize cw ch w)) /\
  (forall w, reinitialised (App.imageChanged w)) /\
  (forall b w,
      App.kinematicState (App.setIsPlaying b w) = App.kinematicState w /\
      V.accumulator (App.locals (App.setIsPlaying b w)) =
        V.accumulator (App.locals w)) /\
  (forall fuel frameTime w,
      Provider.isPlaying (App.context w) = false ->
      App.advance sin fuel frameTime w = Some w) /\
  (forall fuel timestamp w,
      Provider.isPlaying (App.context w) = false ->
      App.draw sin fuel timestamp w = Some (stamped timestamp w)).
Proof.
  repeat split.
  - apply advance_paused.
  - intros fuel t w Hp. rewrite draw_advance. apply advance_paused. exact Hp.
Qed.

End Frame.

(* ================================================================== *)
(** ** The length a step divides by *)

Lemma scaledLength_cases params cw ch :
  V.scaledLength params cw ch = NaN \/
  exists c, V.scaledLength params cw ch = Num c /\ (Q2Qc 1 <= c)%Qc.
Proof.
  unfold V.scaledLength.
  destruct (P.length params / lit 200 * (Math_min cw ch * lit 0.8)) as [| x];
    [left; reflexivity | right].
  destruct (Math_max_Num x (Q2Qc 1)) as (c & Hc & _ & Hle & _).
  exists c. split; [exact Hc | exact Hle].
Qed.

Lemma div_Num (a c : Qc) : c <> Q2Qc 0 -> Num a / Num c = Num (a / c)%Qc.
Proof.
  intros Hc. unfold div. destruct (Qc_eq_bool c (Q2Qc 0)) eqn:E; [| reflexivity].
  apply Qc_eq_bool_correct in E. contradiction.
Qed.

Lemma one_le_nonzero (c : Qc) : (Q2Qc 1 <= c)%Qc -> c <> Q2Qc 0.
Proof. intros H ->. revert H. unfold Qcle. vm_compute. intros H. apply H. reflexivity. Qed.

Section Scenario.

Variable sin : Qc -> Qc.

Lemma scenario_turns (cw ch : Qc) :
  let params := P.defaultParams in
  let L :=
    V.scaledLength params (App.canvasWidth (scenario cw ch))
      (App.canvasHeight (scenario cw ch)) in
  let l1 := V.setAccumulator (lit 0 + lit 0.1) (App.locals (scenario cw ch)) in
  makesTurns sin params L 10 l1 (Nat.iter 10 (V.loopBody sin params L) l1).
Proof.
  intros params L l1. split; [reflexivity |]. split.
  - intros k Hk. rewrite iter_body_accumulator, iter_body_dt.
    do 10 (destruct k as [| k]; [vm_compute; reflexivity |]). lia.
  - rewrite iter_body_accumulator, iter_body_dt. vm_compute. reflexivity.
Qed.

(** Default parameters, paused, then [play()] and [advance(0.1)]: the call
    returns (for every fuel from 10 on); the loop makes exactly ten turns
    and leaves the accumulator at 0; each turn is a semi-implicit Euler step
    of size 0.01 * 30 = 0.3 that divides by [scaledLength]. *)
Lemma scenario_ten_steps (cw ch : Qc) (fuel : nat) :
  (10 <= fuel)%nat ->
  let params := P.defaultParams in
  let L :=
    V.scaledLength params (App.canvasWidth (scenario cw ch))
      (App.canvasHeight (scenario cw ch)) in
  let l1 := V.setAccumulator (lit 0 + lit 0.1) (App.locals (scenario cw ch)) in
  exists w',
    App.advance sin fuel (lit 0.1) (scenario cw ch) = Some w' /\
    makesTurns sin params L 10 l1 (App.locals w') /\
    V.accumulator (App.locals w') = lit 0 /\
    effectiveStep l1 = lit 0.3 /\
    App.kinematicState w' = reference sin L.
Proof.
  intros Hfuel params L l1.
  pose proof (scenario_turns cw ch) as Hturns. cbv zeta in Hturns.
  fold params L l1 in Hturns.
  assert (Hstep : effectiveStep l1 = lit 0.3).
  { change (effectiveStep l1) with (Num (Q2Qc 0.01 * Q2Qc 30)%Qc).
    unfold lit. f_equal. qc_eval. }
  assert (Hkin : kinematics (Nat.iter 10 (V.loopBody sin params L) l1)
                 = reference sin L).
  { rewrite iter_body_kinematics. unfold reference.
    assert (E : Spec.step sin (P.damping params) (stepGravity params) L
                  (effectiveStep l1) =
                Spec.semiImplicitEuler sin (lit 9.81) L (lit 0.3)).
    { rewrite Hstep. reflexivity. }
    rewrite E. reflexivity. }
  exists {| App.context :=
              Provider.writeKinematics
                (V.currentAngle (Nat.iter 10 (V.loopBody sin params L) l1))
                (V.currentVelocity (Nat.iter 10 (V.loopBody sin params L) l1))
                (App.context (scenario cw ch));
            App.canvasWidth := App.canvasWidth (scenario cw ch);
            App.canvasHeight := App.canvasHeight (scenario cw ch);
            App.resetTrigger := O;
            App.locals := Nat.iter 10 (V.loopBody sin params L) l1 |}.
  split.
  { apply (advance_playing_runs sin fuel (lit 0.1) (scenario cw ch));
      [reflexivity |].
    apply (whileLoop_makesTurns sin params L 10 l1 _ Hturns). exact Hfuel. }
  cbn [App.locals]. split; [exact Hturns |].
  split.
  { rewrite iter_body_accumulator.
    change (drained 10 (V.accumulator l1) (V.dt l1)) with
      (Num (Nat.iter 10 (fun a => a - Q2Qc 0.01) (Q2Qc 0 + Q2Qc 0.1))%Qc).
    unfold lit. f_equal. qc_eval. }
  split; [exact Hstep |].
  change (App.kinematicState _) with
    (kinematics (Nat.iter 10 (V.loopBody sin params L) l1)).
  exact Hkin.
Qed.

End Scenario.

(* ================================================================== *)
(** ** The trajectory depends on the canvas *)

Lemma euler_velocity_differs (g L1 L2 h s v : Qc) :
  g <> Q2Qc 0 -> h <> Q2Qc 0 -> s <> Q2Qc 0 ->
  L1 <> Q2Qc 0 -> L2 <> Q2Qc 0 -> L1 <> L2 ->
  (v + (- g / L1) * s * h <> v + (- g / L2) * s * h)%Qc.
Proof.
  intros Hg Hh Hs H1 H2 H12 H.
  set (x := ((- g / L1) * s * h)%Qc).
  assert (Hx1 : (x * L1 = - (g * s * h))%Qc) by (unfold x; field; exact H1).
  assert (Hx2 : (x * L2 = - (g * s * h))%Qc).
  { replace x with ((- g / L2) * s * h)%Qc.
    - field. exact H2.
    - unfold x.
      replace ((- g / L2) * s * h)%Qc
        with ((v + (- g / L2) * s * h) - v)%Qc by ring.
      rewrite <- H. ring. }
  assert (Hz : (x * (L1 - L2) = Q2Qc 0)%Qc).
  { replace (x * (L1 - L2))%Qc with (x * L1 - x * L2)%Qc by ring.
    rewrite Hx1, Hx2. ring. }
  apply Qcmult_integral in Hz. destruct Hz as [Hz | Hz].
  - rewrite Hz in Hx1.
    assert (Hgsh : (g * s * h = Q2Qc 0)%Qc).
    { replace (g * s * h)%Qc with (- (Q2Qc 0 * L1))%Qc by (rewrite Hx1; ring).
      ring. }
    apply Qcmult_integral in Hgsh. destruct Hgsh as [Hgs | Hh0]; [| auto].
    apply Qcmult_integral in Hgs. destruct Hgs; auto.
  - apply H12. replace L1 with ((L1 - L2) + L2)%Qc by ring. rewrite Hz. ring.
Qed.

Lemma euler_angle_differs (a h v1 v2 : Qc) :
  h <> Q2Qc 0 -> v1 <> v2 -> (a + v1 * h <> a + v2 * h)%Qc.
Proof.
  intros Hh Hv H. apply Hv.
  assert (Hz : ((v1 - v2) * h = Q2Qc 0)%Qc).
  { replace ((v1 - v2) * h)%Qc with ((a + v1 * h) - (a + v2 * h))%Qc by ring.
    rewrite H. ring. }
  apply Qcmult_integral in Hz. destruct Hz as [Hz | Hz]; [| contradiction].
  replace v1 with ((v1 - v2) + v2)%Qc by ring. rewrite Hz. ring.
Qed.

Lemma semiImplicitEuler_Num (sin : Qc -> Qc) (g L h a v : Qc) :
  L <> Q2Qc 0 ->
  Spec.semiImplicitEuler sin (Num g) (Num L) (Num h) (Num a, Num v) =
  (Num (a + (v + (- g / L) * sin a * h) * h)%Qc,
   Num (v + (- g / L) * sin a * h)%Qc).
Proof.
  intros HL. unfold Spec.semiImplicitEuler. cbn [neg].
  rewrite (div_Num _ _ HL). reflexivity.
Qed.

Lemma Num_inj (a b : Qc) : Num a = Num b -> a = b.
Proof. intros H. injection H as H. exact H. Qed.

Lemma Qc_nonzero (x : Qc) : Qeq_bool (this x) 0 = false -> x <> Q2Qc 0.
Proof.
  intros H ->. revert H. vm_compute. discriminate.
Qed.

Section Canvas.

Variable sin : Qc -> Qc.

Lemma scenario_effectiveStep (cw ch : Qc) (f : number) :
  effectiveStep (V.setAccumulator f (App.locals (scenario cw ch))) =
  Num (Q2Qc 0.01 * Q2Qc 30)%Qc.
Proof. reflexivity. Qed.

Lemma scenario_kinematics (cw ch : Qc) (f : number) :
  kinematics (V.setAccumulator f (App.locals (scenario cw ch))) =
  (Num angle0, Num (Q2Qc 0)).
Proof. reflexivity. Qed.

Lemma default_step (L h : number) :
  Spec.step sin (P.damping P.defaultParams) (stepGravity P.defaultParams) L h =
  Spec.semiImplicitEuler sin (Num (Q2Qc 9.81)) L h.
Proof. reflexivity. Qed.

Lemma scenario_one_frame (cw ch L : Qc) (fuel : nat) :
  (1 <= fuel)%nat ->
  V.scaledLength P.defaultParams (App.canvasWidth (scenario cw ch))
                 (App.canvasHeight (scenario cw ch)) = Num L ->
  L <> Q2Qc 0 ->
  exists w',
    App.advance sin fuel (lit 0.01) (scenario cw ch) = Some w' /\
    App.kinematicState w' =
      Spec.semiImplicitEuler sin (Num (Q2Qc 9.81)) (Num L)
        (Num (Q2Qc 0.01 * Q2Qc 30)%Qc) (Num angle0, Num (Q2Qc 0)).
Proof.
  intros Hfuel HL HL0.
  assert (Hturn :
            makesTurns sin P.defaultParams
              (V.scaledLength P.defaultParams (App.canvasWidth (scenario cw ch))
                 (App.canvasHeight (scenario cw ch))) 1
              (V.setAccumulator (lit 0 + lit 0.01) (App.locals (scenario cw ch)))
              (V.loopBody sin P.defaultParams
                 (V.scaledLength P.defaultParams (App.canvasWidth (scenario cw ch))
                 (App.canvasHeight (scenario cw ch)))
                 (V.setAccumulator (lit 0 + lit 0.01)
                    (App.locals (scenario cw ch)))))
    by (apply one_turn; reflexivity).
  eexists. split.
  - apply (advance_playing_runs sin fuel (lit 0.01) (scenario cw ch));
      [reflexivity |].
    eapply whileLoop_makesTurns; [exact Hturn | exact Hfuel].
  - unfold App.kinematicState. cbn [App.locals].
    fold (kinematics (V.loopBody sin P.defaultParams
            (V.scaledLength P.defaultParams (App.canvasWidth (scenario cw ch))
                 (App.canvasHeight (scenario cw ch)))
            (V.setAccumulator (lit 0 + lit 0.01)
               (App.locals (scenario cw ch))))).
    rewrite loopBody_kinematics.
    rewrite HL, default_step, scenario_effectiveStep, scenario_kinematics.
    reflexivity.
Qed.

(** C10. The default parameters, paused, then [play()] and one frame of
    0.01 s, once on a 400 x 400 canvas and once on a 400 x 200 canvas: the
    parameters and the frame times are the same, the lengths the step
    divides by are 160 and 80, and, as soon as the sine of the starting
    angle is not zero, both the velocity and the angle differ between the
    two runs. *)
Theorem trajectory_depends_on_canvas (fuel : nat) :
  (1 <= fuel)%nat ->
  sin angle0 <> Q2Qc 0 ->
  Provider.params (App.context (scenario (Q2Qc 400) (Q2Qc 400))) =
    Provider.params (App.context (scenario (Q2Qc 400) (Q2Qc 200))) /\
  V.scaledLength P.defaultParams (lit 400) (lit 400) =
    Math_max ((lit 100 / lit 200) * (lit 400 * lit 0.8)) (lit 1) /\
  V.scaledLength P.defaultParams (lit 400) (lit 200) =
    Math_max ((lit 100 / lit 200) * (lit 200 * lit 0.8)) (lit 1) /\
  exists w1 w2,
    App.advance sin fuel (lit 0.01) (scenario (Q2Qc 400) (Q2Qc 400)) = Some w1 /\
    App.advance sin fuel (lit 0.01) (scenario (Q2Qc 400) (Q2Qc 200)) = Some w2 /\
    fst (App.kinematicState w1) <> fst (App.kinematicState w2) /\
    snd (App.kinematicState w1) <> snd (App.kinematicState w2).
Proof.
  intros Hfuel Hsin.
  split; [reflexivity |]. split; [reflexivity |]. split; [reflexivity |].
  set (L1 := (Q2Qc 100 / Q2Qc 200 * (Q2Qc 400 * Q2Qc 0.8))%Qc).
  set (L2 := (Q2Qc 100 / Q2Qc 200 * (Q2Qc 200 * Q2Qc 0.8))%Qc).
  assert (H1 : L1 <> Q2Qc 0) by (apply Qc_nonzero; vm_compute; reflexivity).
  assert (H2 : L2 <> Q2Qc 0) by (apply Qc_nonzero; vm_compute; reflexivity).
  assert (H12 : L1 <> L2).
  { intros E. apply (f_equal this) in E. vm_compute in E. discriminate. }
  assert (Hg : Q2Qc 9.81 <> Q2Qc 0) by (apply Qc_nonzero; vm_compute; reflexivity).
  assert (Hh : (Q2Qc 0.01 * Q2Qc 30)%Qc <> Q2Qc 0)
    by (apply Qc_nonzero; vm_compute; reflexivity).
  destruct (scenario_one_frame (Q2Qc 400) (Q2Qc 400) L1 fuel Hfuel eq_refl H1)
    as (w1 & Hw1 & K1).
  destruct (scenario_one_frame (Q2Qc 400) (Q2Qc 200) L2 fuel Hfuel eq_refl H2)
    as (w2 & Hw2 & K2).
  exists w1, w2. split; [exact Hw1 |]. split; [exact Hw2 |].
  rewrite K1, K2, (semiImplicitEuler_Num sin _ _ _ _ _ H1),
    (semiImplicitEuler_Num sin _ _ _ _ _ H2).
  cbn [fst snd].
  pose proof (euler_velocity_differs (Q2Qc 9.81) L1 L2 (Q2Qc 0.01 * Q2Qc 30)
                (sin angle0) (Q2Qc 0) Hg Hh Hsin H1 H2 H12) as Hv.
  split.
  - intros E. apply Num_inj in E. revert E.
    apply euler_angle_differs; assumption.
  - intros E. apply Num_inj in E. exact (Hv E).
Qed.

End Canvas.

Lemma trajectory_depends_on_canvas_witness :
  ((1 <= 1)%nat /\ sinSeries2 angle0 <> Q2Qc 0) /\
  exists w1 w2,
    App.advance sinSeries2 1 (lit 0.01) (scenario (Q2Qc 400) (Q2Qc 400)) = Some w1 /\
    App.advance sinSeries2 1 (lit 0.01) (scenario (Q2Qc 400) (Q2Qc 200)) = Some w2 /\
    fst (App.kinematicState w1) <> fst (App.kinematicState w2) /\
    snd (App.kinematicState w1) <> snd (App.kinematicState w2).
Proof.
  assert (Hs : sinSeries2 angle0 <> Q2Qc 0)
    by (apply Qc_nonzero; vm_compute; reflexivity).
  split; [split; [apply le_n | exact Hs] |].
  exact (proj2 (proj2 (proj2
           (trajectory_depends_on_canvas sinSeries2 1 (le_n 1) Hs)))).
Defined.

(* ================================================================== *)
(** ** The length of the step against the length of the specification *)

Section Length.

Variable sin : Qc -> Qc.

(** C1, as the code has it.  In every step gravity is floored again,
    [Math.max(params.gravity, 0.01)], also when the stored value is above
    the minimum (9.81 at the defaults).  But the length the acceleration
    term divides by is [scaledLength], the rendering length in canvas pixels,
    [Math.max((params.length / 200) * (Math.min(width, height) * 0.8), 1)]:
    at the default parameters on the initial 400 x 400 canvas it is 160,
    where the stored length divided by 100 and floored is 1. *)
Theorem default_step_divides_by_pixels :
  (forall params cw ch l,
      kinematics (V.integrate sin params (V.scaledLength params cw ch) l) =
      Spec.step sin (P.damping params)
        (Math_max (P.gravity params) (lit 0.01))
        (Math_max ((P.length params / lit 200) * (Math_min cw ch * lit 0.8))
           (lit 1))
        (V.dt l * V.simulationSpeed l) (kinematics l)) /\
  valueOf (V.scaledLength P.defaultParams (lit 400) (lit 400)) = Some 160%Q /\
  valueOf (Spec.effectiveLength (lit 0.01) (P.length P.defaultParams))
    = Some 1%Q /\
  valueOf (stepGravity P.defaultParams) = Some 9.81%Q /\
  (forall l,
      kinematics
        (V.integrate sin P.defaultParams
           (V.scaledLength P.defaultParams (lit 400) (lit 400)) l) =
      Spec.semiImplicitEuler sin (lit 9.81)
        (V.scaledLength P.defaultParams (lit 400) (lit 400))
        (effectiveStep l) (kinematics l)).
Proof.
  split; [intros; apply integrate_kinematics |].
  split; [vm_compute; reflexivity |].
  split; [vm_compute; reflexivity |].
  split; [vm_compute; reflexivity |].
  intros l. rewrite integrate_kinematics, (default_step sin). reflexivity.
Qed.

End Length.

(* ================================================================== *)
(** ** The scenario against the formulas of the specification *)

(** Powers on [[-1, 1]] stay there, and differ by at most [n] times what
    their arguments differ by. *)
Lemma power_bound (x : Q) (n : nat) :
  (-1 <= x)%Q -> (x <= 1)%Q -> (-1 <= power x n)%Q /\ (power x n <= 1)%Q.
Proof.
  intros Hl Hu. induction n as [| n [IHl IHu]]; cbn [power]; [split; lra |].
  split; nra.
Qed.

Lemma power_diff (x y : Q) (n : nat) :
  (-1 <= x)%Q -> (x <= y)%Q -> (y <= 1)%Q ->
  (- (inject_Z (Z.of_nat n) * (y - x)) <= power y n - power x n)%Q /\
  (power y n - power x n <= inject_Z (Z.of_nat n) * (y - x))%Q.
Proof.
  intros Hl Hxy Hu. induction n as [| n [IHl IHu]].
  - cbn [power]. change (inject_Z (Z.of_nat 0)) with 0%Q. split; lra.
  - cbn [power]. rewrite Nat2Z.inj_succ. unfold Z.succ.
    rewrite inject_Z_plus. change (inject_Z 1) with 1%Q.
    destruct (power_bound x n) as [Bl Bu]; [lra | lra |].
    set (N := inject_Z (Z.of_nat n)) in *.
    set (A := power y n) in *. set (B := power x n) in *.
    assert (HN : (0 <= N)%Q).
    { unfold N. change 0%Q with (inject_Z 0). rewrite <- Zle_Qle. lia. }
    set (d := (y - x)%Q) in *.
    assert (Hd : (0 <= d)%Q) by (unfold d; lra).
    assert (E : (y * A - x * B == y * (A - B) + B * d)%Q) by (unfold d; ring).
    split; rewrite E; nra.
Qed.

(** So the Taylor polynomial is monotone on [[-1, 1]]: bounds for the angle
    give bounds for its value. *)
Lemma taylor7_monotone (x y : Q) :
  (-1 <= x)%Q -> (x <= y)%Q -> (y <= 1)%Q -> (taylor7 x <= taylor7 y)%Q.
Proof.
  intros Hl Hxy Hu. unfold taylor7.
  destruct (power_diff x y 3 Hl Hxy Hu) as [L3 U3].
  destruct (power_diff x y 5 Hl Hxy Hu) as [L5 U5].
  destruct (power_diff x y 7 Hl Hxy Hu) as [L7 U7].
  change (inject_Z (Z.of_nat 3)) with 3%Q in *.
  change (inject_Z (Z.of_nat 5)) with 5%Q in *.
  change (inject_Z (Z.of_nat 7)) with 7%Q in *.
  set (p3 := power y 3) in *. set (q3 := power x 3) in *.
  set (p5 := power y 5) in *. set (q5 := power x 5) in *.
  set (p7 := power y 7) in *. set (q7 := power x 7) in *.
  clearbody p3 q3 p5 q5 p7 q7. unfold Qdiv.
  change (/ 6)%Q with (1 # 6)%Q. change (/ 120)%Q with (1 # 120)%Q.
  change (/ 5040)%Q with (1 # 5040)%Q. lra.
Qed.

Lemma roundDown_le (q : Q) : (roundDown q <= q)%Q.
Proof.
  unfold roundDown. rewrite Qmake_Qdiv.
  pose proof (Qfloor_le (q * 1000000000)) as H.
  apply Qle_shift_div_r; [reflexivity |]. exact H.
Qed.

Lemma roundUp_ge (q : Q) : (q <= roundUp q)%Q.
Proof.
  unfold roundUp. rewrite Qmake_Qdiv.
  pose proof (Qle_ceiling (q * 1000000000)) as H.
  apply Qle_shift_div_l; [reflexivity |]. exact H.
Qed.

Section Enclosure.

Variable sin : Qc -> Qc.
Hypothesis sin_near : nearTaylor sin.

(** A step of the formula takes a state within [b] to a state within
    [stepBox k h b]. *)
Lemma stepBox_sound (g L h : Qc) (k : Q) (b b' : Box) (s : Spec.State) :
  L <> Q2Qc 0 ->
  (k == this g / this L * this h)%Q -> (0 <= k)%Q -> (0 <= this h)%Q ->
  stepBox k (this h) b = Some b' ->
  inBox b s ->
  inBox b' (Spec.semiImplicitEuler sin (Num g) (Num L) (Num h) s).
Proof.
  intros HL Hk Hk0 Hh0 Hstep (a & v & -> & Hal & Hah & Hvl & Hvh).
  unfold stepBox in Hstep.
  destruct (Qle_bool (-1) (alo b) && Qle_bool (ahi b) 1) eqn:Hrange;
    [| discriminate].
  apply andb_prop in Hrange. destruct Hrange as [Hlo Hhi].
  apply Qle_bool_iff in Hlo. apply Qle_bool_iff in Hhi.
  injection Hstep as <-.
  unfold Spec.semiImplicitEuler. cbn [neg]. rewrite (div_Num _ _ HL).
  cbn [Math_sin mul add].
  eexists. eexists. split; [reflexivity |]. cbn [alo ahi vlo vhi].
  destruct (sin_near a) as [Sl Su]; [lra | lra |].
  pose proof (taylor7_monotone (alo b) (this a)) as Ml.
  pose proof (taylor7_monotone (this a) (ahi b)) as Mu.
  assert (Ml' : (taylor7 (alo b) <= taylor7 (this a))%Q) by (apply Ml; lra).
  assert (Mu' : (taylor7 (this a) <= taylor7 (ahi b))%Q) by (apply Mu; lra).
  clear Ml Mu.
  set (v' := (v + - g / L * sin a * h)%Qc).
  assert (Ev : (this v' == this v - k * this (sin a))%Q).
  { unfold v'. rewrite this_add, !this_mul, this_div, this_opp, Hk.
    assert (HLq : ~ (this L == 0)%Q).
    { intros E. apply HL. apply Qc_is_canon. rewrite E. reflexivity. }
    field. exact HLq. }
  set (S := this (sin a)) in *. set (Tl := taylor7 (alo b)) in *.
  set (Th := taylor7 (ahi b)) in *. set (Ta := taylor7 (this a)) in *.
  set (lo := roundDown (vlo b - k * (Th + (3 # 1000000)))%Q).
  set (hi := roundUp (vhi b - k * (Tl - (3 # 1000000)))%Q).
  assert (Hlo' : (lo <= this v')%Q).
  { apply Qle_trans with (vlo b - k * (Th + (3 # 1000000)))%Q;
      [apply roundDown_le |]. rewrite Ev. nra. }
  assert (Hhi' : (this v' <= hi)%Q).
  { apply Qle_trans with (vhi b - k * (Tl - (3 # 1000000)))%Q;
      [| apply roundUp_ge]. rewrite Ev. nra. }
  repeat split; try assumption.
  - apply Qle_trans with (alo b + this h * lo)%Q; [apply roundDown_le |].
    rewrite this_add, this_mul. nra.
  - apply Qle_trans with (ahi b + this h * hi)%Q; [| apply roundUp_ge].
    rewrite this_add, this_mul. nra.
Qed.

Lemma stepsBox_sound (g L h : Qc) (k : Q) (n : nat) :
  L <> Q2Qc 0 ->
  (k == this g / this L * this h)%Q -> (0 <= k)%Q -> (0 <= this h)%Q ->
  forall (b b' : Box) (s : Spec.State),
    stepsBox n k (this h) b = Some b' ->
    inBox b s ->
    inBox b' (Nat.iter n (Spec.semiImplicitEuler sin (Num g) (Num L) (Num h)) s).
Proof.
  intros HL Hk Hk0 Hh0. induction n as [| n IH]; intros b b' s Hsteps Hin.
  - injection Hsteps as <-. exact Hin.
  - cbn [stepsBox] in Hsteps.
    destruct (stepBox k (this h) b) as [b1 |] eqn:E; [| discriminate].
    rewrite iter_S, <- iter_shift. apply (IH b1 b' _ Hsteps).
    apply (stepBox_sound g L h k b b1 s HL Hk Hk0 Hh0 E Hin).
Qed.

End Enclosure.

(** The stand-in qualifies. *)
Lemma nearTaylor_taylorSine : nearTaylor taylorSine.
Proof.
  intros x _ _. unfold taylorSine. rewrite this_Q2Qc. split; lra.
Qed.

Lemma valueOf_Num (x : number) (c : Qc) :
  valueOf x = Some (this c) -> x = Num c.
Proof.
  destruct x as [| a]; cbn [valueOf]; [discriminate |].
  intros H. injection H as H. f_equal. apply Qc_is_canon. rewrite H.
  reflexivity.
Qed.

Lemma inBox_startBox : inBox startBox (Num angle0, Num (Q2Qc 0)).
Proof.
  exists angle0, (Q2Qc 0). split; [reflexivity |].
  cbn [startBox alo ahi vlo vhi].
  repeat split; try apply Qle_refl; vm_compute; discriminate.
Qed.

(** C3. The scenario does not give the values of the formulas.  Default
    parameters on the 400 x 400 canvas, paused, then [play()] and
    [advance(0.1)], for every sine within 3/1000000 of its Taylor polynomial
    on [[-1, 1]] and every fuel from 10 on.  The call returns; the loop makes
    exactly ten turns and leaves the accumulator at 0; each turn is a
    semi-implicit Euler step of size 0.01 * 30 = 0.3.  But the steps divide
    by [scaledLength], which is 160 here, where the formulas divide by
    [effectiveLength], the length over 100, which is 1: the code ends at an
    angle between 0.5785 and 0.5786 and a velocity between -0.1215 and
    -0.1214, ten steps of the formulas at an angle between -0.85 and -0.82
    and a velocity between -0.39 and -0.34.  Neither pair is within 1e-9. *)
Theorem scenario_misses_spec_values (sin : Qc -> Qc) (fuel : nat) :
  nearTaylor sin ->
  (10 <= fuel)%nat ->
  let w := scenario (Q2Qc 400) (Q2Qc 400) in
  let params := P.defaultParams in
  let L := V.scaledLength params (App.canvasWidth w) (App.canvasHeight w) in
  let effectiveLength := Spec.effectiveLength (lit 0.01) (P.length params) in
  let l1 := V.setAccumulator (lit 0 + lit 0.1) (App.locals w) in
  exists w' a v a' v',
    App.advance sin fuel (lit 0.1) w = Some w' /\
    makesTurns sin params L 10 l1 (App.locals w') /\
    V.accumulator (App.locals w') = lit 0 /\
    effectiveStep l1 = lit 0.3 /\
    valueOf L = Some 160%Q /\
    App.kinematicState w' = reference sin L /\
    App.kinematicState w' = (Num a, Num v) /\
    (0.5785 <= this a)%Q /\ (this a <= 0.5786)%Q /\
    (-0.1215 <= this v)%Q /\ (this v <= -0.1214)%Q /\
    valueOf effectiveLength = Some 1%Q /\
    reference sin effectiveLength = (Num a', Num v') /\
    (-0.85 <= this a')%Q /\ (this a' <= -0.82)%Q /\
    (-0.39 <= this v')%Q /\ (this v' <= -0.34)%Q /\
    ~ closeTo 1e-9 (Num a) (Num a') /\
    ~ closeTo 1e-9 (Num v) (Num v').
Proof.
  intros Hsin Hfuel w params L effectiveLength l1.
  destruct (scenario_ten_steps sin (Q2Qc 400) (Q2Qc 400) fuel Hfuel)
    as (w' & Hrun & Hturns & Hacc & Hstep & Hkin).
  fold w params L l1 in Hrun, Hturns, Hstep, Hkin.
  assert (HL : L = Num (Q2Qc 160))
    by (apply valueOf_Num; vm_compute; reflexivity).
  assert (HE : effectiveLength = Num (Q2Qc 1))
    by (apply valueOf_Num; vm_compute; reflexivity).
  assert (HL0 : Q2Qc 160 <> Q2Qc 0) by (apply Qc_nonzero; vm_compute; reflexivity).
  assert (HE0 : Q2Qc 1 <> Q2Qc 0) by (apply Qc_nonzero; vm_compute; reflexivity).
  assert (Hh0 : (0 <= this (Q2Qc 0.3))%Q) by (vm_compute; discriminate).
  pose proof (stepsBox_sound sin Hsin (Q2Qc 9.81) (Q2Qc 160) (Q2Qc 0.3)
                (2943 # 160000) 10 HL0) as Hcode.
  pose proof (stepsBox_sound sin Hsin (Q2Qc 9.81) (Q2Qc 1) (Q2Qc 0.3)
                (2943 # 1000) 10 HE0) as Hspec.
  specialize (Hcode ltac:(vm_compute; reflexivity) ltac:(vm_compute; discriminate)
                Hh0 startBox
                (mkBox 0.578522635 0.578524546 (-0.121406405) (-0.121405215))
                (Num angle0, Num (Q2Qc 0))
                ltac:(vm_compute; reflexivity) inBox_startBox).
  specialize (Hspec ltac:(vm_compute; reflexivity) ltac:(vm_compute; discriminate)
                Hh0 startBox
                (mkBox (-0.841941142) (-0.821999412) (-0.383720491)
                   (-0.346762077))
                (Num angle0, Num (Q2Qc 0))
                ltac:(vm_compute; reflexivity) inBox_startBox).
  destruct Hcode as (a & v & Hc & Hal & Hah & Hvl & Hvh).
  destruct Hspec as (a' & v' & Hs & Hal' & Hah' & Hvl' & Hvh').
  cbn [alo ahi vlo vhi] in *.
  exists w', a, v, a', v'.
  split; [exact Hrun |]. split; [exact Hturns |]. split; [exact Hacc |].
  split; [exact Hstep |]. split; [vm_compute; reflexivity |].
  split; [exact Hkin |].
  split; [rewrite Hkin, HL; exact Hc |].
  split; [lra |]. split; [lra |]. split; [lra |]. split; [lra |].
  split; [vm_compute; reflexivity |].
  split; [rewrite HE; exact Hs |].
  split; [lra |]. split; [lra |]. split; [lra |]. split; [lra |].
  assert (Htol : (1e-9 < 1 # 10)%Q) by reflexivity.
  unfold closeTo. split; intros H.
  - pose proof (Qle_Qabs (this a - this a')) as Habs.
    set (tol := 1e-9%Q) in *. lra.
  - pose proof (Qle_Qabs (this v - this v')) as Habs.
    set (tol := 1e-9%Q) in *. lra.
Qed.

Lemma scenario_misses_spec_values_witness :
  nearTaylor taylorSine /\ (10 <= 10)%nat /\
  exists w',
    App.advance taylorSine 10 (lit 0.1) (scenario (Q2Qc 400) (Q2Qc 400))
      = Some w' /\
    V.accumulator (App.locals w') = lit 0.
Proof.
  split; [exact nearTaylor_taylorSine |]. split; [apply le_n |].
  destruct (scenario_misses_spec_values taylorSine 10 nearTaylor_taylorSine
              (le_n 10)) as (w' & _ & _ & _ & _ & Hrun & _ & Hacc & _).
  exists w'. split; assumption.
Defined.

(* ================================================================== *)
(** ** A step whose arithmetic yields NaN *)

Section NaNStep.

Variable sin : Qc -> Qc.

Lemma add_NaN_r (x : number) : x + NaN = NaN.
Proof. destruct x; reflexivity. Qed.

Lemma mul_NaN_r (x : number) : x * NaN = NaN.
Proof. destruct x; reflexivity. Qed.

Lemma acceleration_NaN_gravity (L damping theta omega : number) :
  Spec.acceleration sin NaN L damping theta omega = NaN.
Proof. reflexivity. Qed.

Lemma step_NaN_gravity (damping L h : number) (s : Spec.State) :
  Spec.step sin damping NaN L h s = (NaN, NaN).
Proof.
  unfold Spec.step. destruct (damping === lit 0).
  - destruct s as [a v]. unfold Spec.semiImplicitEuler.
    cbn [neg div mul]. rewrite ?add_NaN_r. cbn [mul]. rewrite ?add_NaN_r.
    reflexivity.
  - destruct s as [a v].
    unfold Spec.rk4Step, Spec.RK4, Spec.pendulum, Spec.vadd, Spec.vscale.
    cbn [fst snd]. rewrite !acceleration_NaN_gravity.
    repeat (rewrite ?mul_NaN_r, ?add_NaN_r; cbn [add mul div]).
    reflexivity.
Qed.

(** C4, the code on a step that produces NaN.  With [params.gravity] NaN
    the world is playing from a valid state (45 degrees in radians,
    velocity 0).  One frame of 0.01 s returns normally and the accumulator
    is taken down to 0, but the step is not skipped: angle and velocity are
    both overwritten with NaN, and so are [params.currentAngle] and
    [params.currentVelocity]. *)
Theorem nan_step_overwrites_state :
  P.gravity (Provider.params (App.context gravityNaNPlaying)) = NaN /\
  App.kinematicState gravityNaNPlaying = (Num angle0, lit 0) /\
  exists w',
    (forall fuel, (1 <= fuel)%nat ->
       App.advance sin fuel (lit 0.01) gravityNaNPlaying = Some w') /\
    App.kinematicState w' = (NaN, NaN) /\
    P.currentAngle (Provider.params (App.context w')) = NaN /\
    P.currentVelocity (Provider.params (App.context w')) = NaN /\
    valueOf (V.accumulator (App.locals w')) = Some 0%Q.
Proof.
  split; [reflexivity |]. split; [reflexivity |].
  set (params := Provider.params (App.context gravityNaNPlaying)).
  set (L := V.scaledLength params (lit 400) (lit 400)).
  set (l1 := V.setAccumulator (lit 0 + lit 0.01) (App.locals gravityNaNPlaying)).
  assert (Hturn : makesTurns sin params L 1 l1 (V.loopBody sin params L l1))
    by (apply one_turn; reflexivity).
  assert (Hkin : kinematics (V.loopBody sin params L l1) = (NaN, NaN)).
  { rewrite loopBody_kinematics.
    change (stepGravity params) with NaN. apply step_NaN_gravity. }
  exists {| App.context :=
              Provider.writeKinematics
                (V.currentAngle (V.loopBody sin params L l1))
                (V.currentVelocity (V.loopBody sin params L l1))
                (App.context gravityNaNPlaying);
            App.canvasWidth := lit 400;
            App.canvasHeight := lit 400;
            App.resetTrigger := O;
            App.locals := V.loopBody sin params L l1 |}.
  split.
  { intros fuel Hfuel.
    apply (advance_playing_runs sin fuel (lit 0.01) gravityNaNPlaying);
      [reflexivity |].
    apply (whileLoop_makesTurns sin params L 1 l1 _ Hturn). exact Hfuel. }
  pose proof (f_equal fst Hkin) as Hka. pose proof (f_equal snd Hkin) as Hkv.
  cbn [kinematics fst snd] in Hka, Hkv.
  cbn [App.context App.locals App.kinematicState].
  rewrite writeKinematics_params.
  cbn [Provider.withKinematics P.currentAngle P.currentVelocity].
  rewrite Hka, Hkv.
  split; [reflexivity |]. split; [reflexivity |]. split; [reflexivity |].
  rewrite loopBody_accumulator. vm_compute. reflexivity.
Qed.

End NaNStep.

(* ================================================================== *)
(** ** The scenario's accumulator in binary64 *)

(** X1. In binary64 too, [advance(0.1)] with [dt] 0.01 from an empty accumulator
    makes exactly ten turns; what is left in the accumulator is not 0 but a
    rounding residue of about 1e-17, below [dt] and not negative. *)
Lemma scenario_turns_binary64 :
  exists rest,
    Binary64.turns 10 (PrimFloat.add 0%float Binary64.tenth) Binary64.hundredth
      = Some (10%nat, rest) /\
    PrimFloat.ltb rest Binary64.hundredth = true /\
    PrimFloat.leb 0%float rest = true /\
    PrimFloat.ltb rest 0x1p-56%float = true.
Proof.
  eexists. split; [vm_compute; reflexivity |].
  repeat split; vm_compute; reflexivity.
Qed.


(* ================================================================== *)
(** ** The settings panel and the store *)

Lemma lt_false_le (a m : Qc) : (Num a <? Num m) = false -> (m <= a)%Qc.
Proof.
  unfold lt. rewrite negb_false_iff. intros H.
  apply Qle_bool_iff in H. exact H.
Qed.

(** A value that is not below the minimum passes [Math.max] unchanged. *)
Lemma Math_max_idle (x : number) (m : Qc) :
  (x <? Num m) = false -> Math_max x (Num m) = x.
Proof.
  destruct x as [| a]; [reflexivity |].
  intros H. apply Math_max_ge, lt_false_le, H.
Qed.

Lemma Math_max_not_below (x : number) (m : Qc) :
  (Math_max x (Num m) <? Num m) = false.
Proof. apply (Math_max_clampedTo m x). Qed.

Lemma Math_max_twice (x : number) (m : Qc) :
  Math_max (Math_max x (Num m)) (Num m) = Math_max x (Num m).
Proof. apply Math_max_idle, Math_max_not_below. Qed.

(** X2. [startingAngle] has no entry in [MIN_SAFE_VALUES], so the panel's
    [getSafeMinValue] answers 0 for it: [handleInputChange] stores every
    negative starting angle as 0, and the slider of the starting angle is
    rendered with the minimum [Math.max(-180, 0)], which is 0; the store
    itself keeps a negative starting angle written to it directly. *)
Lemma panel_floors_startingAngle (prev : P.SimulatorParams) (v : Qc) :
  (v < Q2Qc 0)%Qc ->
  P.startingAngle
    (P.setValidatedParams
       (SettingsPanel.handleInputChange SettingsPanel.startingAngle (Num v))
       prev) = lit 0 /\
  P.startingAngle
    (P.setValidatedParams (P.Value (startingAngleOnly (Num v))) prev) = Num v /\
  SettingsPanel.getSliderMin SettingsPanel.startingAngle = lit (-180) /\
  SettingsPanel.sliderMin SettingsPanel.startingAngle = lit 0.
Proof.
  intros Hv. split; [| split; [reflexivity | split; reflexivity]].
  cbn [P.setValidatedParams SettingsPanel.handleInputChange P.validatedParams
       P.startingAngle SettingsPanel.withKey P.startingAngle' nullish
       SettingsPanel.getSafeMinValue].
  apply Math_max_lt, Hv.
Qed.

Lemma panel_floors_startingAngle_witness :
  (Q2Qc (-30) < Q2Qc 0)%Qc /\
  P.startingAngle
    (P.setValidatedParams
       (SettingsPanel.handleInputChange SettingsPanel.startingAngle (lit (-30)))
       P.defaultParams) = lit 0.
Proof.
  assert (H : (Q2Qc (-30) < Q2Qc 0)%Qc) by (vm_compute; reflexivity).
  split; [exact H |].
  exact (proj1 (panel_floors_startingAngle P.defaultParams (Q2Qc (-30)) H)).
Defined.

(** *** The minimums are kept in every reachable world *)

Lemma respectsMinimums_default : respectsMinimums P.defaultParams.
Proof. repeat split. Qed.

Lemma respectsMinimums_validated newParams prev :
  respectsMinimums (P.setValidatedParams newParams prev).
Proof.
  unfold respectsMinimums, P.setValidatedParams.
  cbn [P.validatedParams P.length P.mass P.gravity P.damping P.timeInterval
       P.simulationSpeed].
  repeat split; apply Math_max_not_below.
Qed.

Lemma respectsMinimums_withKinematics a v p :
  respectsMinimums (Provider.withKinematics a v p) <-> respectsMinimums p.
Proof. reflexivity. Qed.

Section Store.

Variable sin : Qc -> Qc.

Lemma advance_params fuel frameTime w w' :
  App.advance sin fuel frameTime w = Some w' ->
  Provider.params (App.context w') = Provider.params (App.context w) \/
  exists a v,
    Provider.params (App.context w') =
    Provider.withKinematics a v (Provider.params (App.context w)).
Proof.
  intros Hrun. destruct (Provider.isPlaying (App.context w)) eqn:Hp.
  - destruct (advance_playing sin _ _ _ _ Hp Hrun) as (l' & _ & ->).
    right. exists (V.currentAngle l'), (V.currentVelocity l').
    cbn [App.context]. apply writeKinematics_params.
  - rewrite (advance_paused sin _ _ _ Hp) in Hrun. injection Hrun as <-.
    left. reflexivity.
Qed.

Lemma respectsMinimums_step fuel e w w' :
  wellFormed w -> respectsMinimums (Provider.params (App.context w)) ->
  App.step sin fuel e w = Some w' ->
  respectsMinimums (Provider.params (App.context w')).
Proof.
  intros (Hc & _ & _) Hm Hstep.
  assert (Hadv : forall f v, App.advance sin fuel f v = Some w' ->
                   respectsMinimums (Provider.params (App.context v)) ->
                   respectsMinimums (Provider.params (App.context w'))).
  { intros f v Hv Hmv.
    destruct (advance_params _ _ _ _ Hv) as [-> | (a & x & ->)];
      [exact Hmv | apply respectsMinimums_withKinematics, Hmv]. }
  destruct e; cbn [App.step] in Hstep.
  - rewrite draw_advance in Hstep. apply (Hadv _ _ Hstep). exact Hm.
  - apply (Hadv _ _ Hstep). exact Hm.
  - injection Hstep as <-. exact Hm.
  - injection Hstep as <-. apply respectsMinimums_validated.
  - injection Hstep as <-.
    cbn [App.resetParams App.rerunEffect App.context Provider.resetParams
         Provider.params Provider.paramsRef Provider.ownObject].
    rewrite (resetObject_default _ Hc). apply respectsMinimums_default.
  - injection Hstep as <-.
    cbn [App.handleReset App.rerunEffect App.context Provider.resetParams
         Provider.setIsPlaying Provider.params Provider.paramsRef
         Provider.ownObject Provider.defaultParams].
    rewrite (resetObject_default _ Hc). apply respectsMinimums_default.
  - injection Hstep as <-. exact Hm.
  - injection Hstep as <-. exact Hm.
Qed.

Lemma respectsMinimums_run fuel es :
  forall w w',
    wellFormed w -> respectsMinimums (Provider.params (App.context w)) ->
    App.run sin fuel es w = Some w' ->
    respectsMinimums (Provider.params (App.context w')).
Proof.
  induction es as [| e es IH]; intros w w' Hw Hm Hrun; cbn in Hrun.
  - injection Hrun as <-. exact Hm.
  - destruct (App.step sin fuel e w) as [w1 |] eqn:E; [| discriminate].
    apply (IH w1);
      [eapply wellFormed_step; eassumption
      | eapply respectsMinimums_step; eassumption
      | exact Hrun].
Qed.

Lemma reachable_respectsMinimums w :
  App.reachable sin w -> respectsMinimums (Provider.params (App.context w)).
Proof.
  intros (fuel & es & Hrun).
  eapply respectsMinimums_run;
    [apply wellFormed_initial | apply respectsMinimums_default | exact Hrun].
Qed.

(** X3. In every world the application can reach, whatever was written and
    however often [draw] wrote the angle and the velocity into [params] in
    place, none of the six clamped keys of [params] compares below its
    minimum: each is a number at least its entry of [MIN_SAFE_VALUES], or
    NaN. *)
Theorem store_keeps_minimums (w : App.World) :
  App.reachable sin w ->
  forall key,
    let x := SettingsPanel.entry key (Provider.params (App.context w)) in
    key = SettingsPanel.startingAngle \/
    x = NaN \/
    exists q m,
      x = Num q /\ SettingsPanel.getSafeMinValue key = Num m /\ (m <= q)%Qc.
Proof.
  intros Hreach key. apply reachable_respectsMinimums in Hreach.
  destruct Hreach as (H1 & H2 & H3 & H4 & H5 & H6).
  assert (G : forall x m, (x <? Num m) = false ->
                x = NaN \/ exists q m', x = Num q /\ Num m = Num m' /\ (m' <= q)%Qc).
  { intros [| q] m H; [left; reflexivity | right].
    exists q, m. repeat split. apply lt_false_le, H. }
  destruct key; cbn [SettingsPanel.entry SettingsPanel.getSafeMinValue];
    first [left; reflexivity | right; apply G; assumption].
Qed.

(** X4. In a reachable world an edit in the settings panel changes the
    edited key and nothing else: the entry of [key] becomes
    [Math.max(value, getSafeMinValue(key))], every other entry of the panel
    and the two kinematic keys of [params] keep their values (the second
    clamp, in the store, finds nothing to raise). *)
Theorem panel_edit_changes_one_key (w : App.World) (key : SettingsPanel.Key)
    (value : number) :
  App.reachable sin w ->
  let p := Provider.params (App.context w) in
  let p' :=
    Provider.params
      (App.context
         (App.setParams (SettingsPanel.handleInputChange key value) w)) in
  SettingsPanel.entry key p' =
    Math_max value (SettingsPanel.getSafeMinValue key) /\
  (forall k, k <> key -> SettingsPanel.entry k p' = SettingsPanel.entry k p) /\
  P.currentAngle p' = P.currentAngle p /\
  P.currentVelocity p' = P.currentVelocity p.
Proof.
  intros Hreach. apply reachable_respectsMinimums in Hreach.
  destruct Hreach as (H1 & H2 & H3 & H4 & H5 & H6).
  cbv zeta.
  set (p := Provider.params (App.context w)) in *.
  cbn [App.setParams App.rerunEffect App.context Provider.setParams
       Provider.params Provider.paramsRef Provider.ownObject].
  fold p.
  split; [| split; [| split; destruct key; reflexivity]].
  - destruct key;
      cbn [SettingsPanel.entry SettingsPanel.handleInputChange
           P.setValidatedParams P.validatedParams SettingsPanel.withKey
           P.allOf P.length P.mass P.startingAngle P.gravity P.damping
           P.timeInterval P.simulationSpeed P.length' P.mass'
           P.startingAngle' P.gravity' P.damping' P.timeInterval'
           P.simulationSpeed' nullish SettingsPanel.getSafeMinValue];
      first [apply Math_max_twice | reflexivity].
  - intros k Hk.
    destruct key, k; try contradiction;
      cbn [SettingsPanel.entry SettingsPanel.handleInputChange
           P.setValidatedParams P.validatedParams SettingsPanel.withKey
           P.allOf P.length P.mass P.startingAngle P.gravity P.damping
           P.timeInterval P.simulationSpeed P.length' P.mass'
           P.startingAngle' P.gravity' P.damping' P.timeInterval'
           P.simulationSpeed' nullish];
      first [reflexivity | apply Math_max_idle; assumption].
Qed.

End Store.

Lemma store_keeps_minimums_witness :
  App.reachable sinSeries2 moonPlaying /\
  exists q m,
    P.gravity (Provider.params (App.context moonPlaying)) = Num q /\
    P.MIN_SAFE_VALUES.gravity = Num m /\ (m <= q)%Qc.
Proof.
  split; [apply reachable_moonPlaying |].
  destruct (store_keeps_minimums sinSeries2 moonPlaying
              (reachable_moonPlaying sinSeries2) SettingsPanel.gravity)
    as [H | [H | H]]; [discriminate H | discriminate H | exact H].
Defined.

Lemma panel_edit_changes_one_key_witness :
  App.reachable sinSeries2 moonPlaying /\
  P.length
    (Provider.params
       (App.context
          (App.setParams
             (SettingsPanel.handleInputChange SettingsPanel.length (lit 0.5))
             moonPlaying))) = Math_max (lit 0.5) (lit 1) /\
  P.gravity
    (Provider.params
       (App.context
          (App.setParams
             (SettingsPanel.handleInputChange SettingsPanel.length (lit 0.5))
             moonPlaying))) =
  P.gravity (Provider.params (App.context moonPlaying)).
Proof.
  split; [apply reachable_moonPlaying |].
  pose proof (panel_edit_changes_one_key sinSeries2 moonPlaying
                SettingsPanel.length (lit 0.5)
                (reachable_moonPlaying sinSeries2)) as (H1 & H2 & _).
  split; [exact H1 |].
  apply (H2 SettingsPanel.gravity). discriminate.
Defined.

(** *** The sliders *)

(** X5. What a slider of the settings panel can deliver is stored as it is:
    for every key, a number at or above the minimum the slider is rendered
    with, [Math.max(getSliderMin(key), getSafeMinValue(key))], passes both
    clamps (the panel's and the store's) unchanged.  That minimum is below
    the slider's maximum, and the step is positive, for every key; an empty
    array from the slider writes nothing. *)
Theorem slider_value_stored_as_is (key : SettingsPanel.Key) (v : Qc)
    (rest : list number) (prev : P.SimulatorParams) :
  (Num v >=? SettingsPanel.sliderMin key) = true ->
  (exists action,
     SettingsPanel.handleSliderChange key (Num v :: rest) = Some action /\
     SettingsPanel.entry key (P.setValidatedParams action prev) = Num v) /\
  (SettingsPanel.sliderMin key <? SettingsPanel.getSliderMax key) = true /\
  (lit 0 <? SettingsPanel.getSliderStep key) = true /\
  SettingsPanel.handleSliderChange key [] = None.
Proof.
  intros Hv.
  split; [| split; [| split]];
    [| destruct key; vm_compute; reflexivity
     | destruct key; vm_compute; reflexivity
     | reflexivity].
  eexists. split; [reflexivity |].
  assert (G : forall m : Qc, (m <= v)%Qc ->
                Math_max (Math_max (Num v) (Num m)) (Num m) = Num v).
  { intros m Hm. rewrite Math_max_twice. apply Math_max_ge, Hm. }
  destruct key;
    cbn [SettingsPanel.entry SettingsPanel.handleInputChange
         P.setValidatedParams P.validatedParams SettingsPanel.withKey
         P.allOf P.length P.mass P.startingAngle P.gravity P.damping
         P.timeInterval P.simulationSpeed P.length' P.mass'
         P.startingAngle' P.gravity' P.damping' P.timeInterval'
         P.simulationSpeed' nullish SettingsPanel.getSafeMinValue];
    first [apply G | apply Math_max_ge];
    apply ge_Num in Hv; exact Hv.
Qed.

Lemma slider_value_stored_as_is_witness :
  (lit 150 >=? SettingsPanel.sliderMin SettingsPanel.length) = true /\
  exists action,
    SettingsPanel.handleSliderChange SettingsPanel.length [lit 150] = Some action /\
    P.length (P.setValidatedParams action P.defaultParams) = lit 150.
Proof.
  split; [reflexivity |].
  exact (proj1 (slider_value_stored_as_is SettingsPanel.length (Q2Qc 150) []
                  P.defaultParams eq_refl)).
Defined.

(* ================================================================== *)
(** ** Zoom and pan *)

Lemma Math_min_Num (a b : Qc) :
  exists c, Math_min (Num a) (Num b) = Num c /\
            (c <= a)%Qc /\ (c <= b)%Qc /\ (c = a \/ c = b).
Proof.
  unfold Math_min. destruct (Qle_bool a b) eqn:E.
  - apply Qle_bool_iff in E. exists a. repeat split; auto; unfold Qcle; lra.
  - exists b. repeat split; auto; unfold Qcle; try lra.
    destruct (Qlt_le_dec b a) as [H | H]; [lra |].
    apply Qle_bool_iff in H. congruence.
Qed.

Lemma zoomInRange_initial : zoomInRange useZoomAndPan.initial.
Proof.
  exists (Q2Qc 1). split; [reflexivity |].
  split; unfold Qcle; vm_compute; discriminate.
Qed.

Lemma zoomInRange_step (s : useZoomAndPan.State) (e : View.Event) :
  numericWheel e -> zoomInRange s -> zoomInRange (View.step s e).
Proof.
  intros He (z & Hz & Hlo & Hhi). unfold zoomInRange.
  destruct e as [cx cy | cx cy | | | deltaY | | |]; cbn [View.step].
  - exists z. auto.
  - unfold useZoomAndPan.handleMouseMove.
    destruct (negb (useZoomAndPan.isDragging s)); exists z; auto.
  - exists z. auto.
  - exists z. auto.
  - destruct deltaY as [| d]; [contradiction |].
    cbn [useZoomAndPan.handleWheel useZoomAndPan.setZoom useZoomAndPan.zoom].
    rewrite Hz. unfold lit. cbn [mul sub].
    destruct (Math_min_Num (Q2Qc 5) (z - d * Q2Qc 0.001)) as (y & -> & Hy5 & _ & _).
    destruct (Math_max_Num (Q2Qc 0.5) y) as (c & -> & Hc & _ & [-> | ->]).
    + exists (Q2Qc 0.5). split; [reflexivity |].
      split; unfold Qcle; vm_compute; discriminate.
    + exists y. auto.
  - cbn [View.onZoomIn useZoomAndPan.setZoom useZoomAndPan.zoom].
    rewrite Hz. unfold lit. cbn [add].
    destruct (Math_min_Num (Q2Qc 5) (z + Q2Qc 0.1)) as (y & -> & Hy5 & _ & [-> | ->]).
    + exists (Q2Qc 5). split; [reflexivity |].
      split; unfold Qcle; vm_compute; discriminate.
    + exists (z + Q2Qc 0.1)%Qc. split; [reflexivity |].
      split; [qc_order | exact Hy5].
  - cbn [View.onZoomOut useZoomAndPan.setZoom useZoomAndPan.zoom].
    rewrite Hz. unfold lit. cbn [sub].
    destruct (Math_max_Num (Q2Qc 0.5) (z - Q2Qc 0.1)) as (c & -> & Hc & _ & [-> | ->]).
    + exists (Q2Qc 0.5). split; [reflexivity |].
      split; unfold Qcle; vm_compute; discriminate.
    + exists (z - Q2Qc 0.1)%Qc. split; [reflexivity |].
      split; [exact Hc | qc_order].
  - exists (Q2Qc 1). split; [reflexivity |].
    split; unfold Qcle; vm_compute; discriminate.
Qed.

(** X6. The zoom factor never leaves the interval from 0.5 to 5: after
    every sequence of mouse, wheel and button events on the view (wheel
    events carrying numbers), starting from the hook's initial state, [zoom]
    is a number with 0.5 <= zoom <= 5.  The wheel handler clamps on both
    sides, the "zoom in" button only from above and the "zoom out" button
    only from below. *)
Theorem zoom_stays_in_range (es : list View.Event) :
  Forall numericWheel es ->
  zoomInRange (View.run es useZoomAndPan.initial).
Proof.
  unfold View.run. generalize zoomInRange_initial.
  generalize useZoomAndPan.initial.
  induction es as [| e es IH]; intros s Hs Hes; [exact Hs |].
  cbn [fold_left]. inversion Hes as [| e' es' He Hes']; subst.
  apply IH; [apply zoomInRange_step; assumption | exact Hes'].
Qed.

Lemma zoom_stays_in_range_witness :
  Forall numericWheel
    [View.Wheel (lit (-9000)); View.ZoomIn; View.Wheel (lit 12000);
     View.ZoomOut] /\
  zoomInRange
    (View.run
       [View.Wheel (lit (-9000)); View.ZoomIn; View.Wheel (lit 12000);
        View.ZoomOut]
       useZoomAndPan.initial).
Proof.
  assert (H : Forall numericWheel
                [View.Wheel (lit (-9000)); View.ZoomIn; View.Wheel (lit 12000);
                 View.ZoomOut])
    by (repeat constructor).
  split; [exact H | exact (zoom_stays_in_range _ H)].
Defined.

Lemma run_moves_dragging (ms : list (number * number)) :
  forall z p ds,
  exists p',
    View.run (map moveTo ms) (useZoomAndPan.mkState z p true ds) =
    useZoomAndPan.mkState z p' true ds.
Proof.
  induction ms as [| m ms IH]; intros z p ds; [exists p; reflexivity |].
  cbn [map]. unfold View.run. cbn [fold_left moveTo View.step].
  apply IH.
Qed.

Lemma run_moves_idle (ms : list (number * number)) (s : useZoomAndPan.State) :
  useZoomAndPan.isDragging s = false -> View.run (map moveTo ms) s = s.
Proof.
  intros Hs. induction ms as [| m ms IH]; [reflexivity |].
  cbn [map]. unfold View.run in *. cbn [fold_left moveTo View.step].
  unfold useZoomAndPan.handleMouseMove. rewrite Hs. exact IH.
Qed.

(** X7. A drag of the view moves [pan] by exactly the displacement of the
    mouse between the press and the last move before the release, whatever
    path the mouse took in between; mouse moves after the release change
    nothing, and the zoom factor is untouched.  (Exact arithmetic: the code
    computes [clientX - (clientX0 - pan.x)].) *)
Theorem drag_translates_pan (z : number) (d : bool) (ds : useZoomAndPan.Point)
    (px py x0 y0 x1 y1 : Qc) (path later : list (number * number)) :
  View.run
    (View.MouseDown (Num x0) (Num y0) :: map moveTo path ++
     [View.MouseMove (Num x1) (Num y1); View.MouseUp] ++ map moveTo later)
    (useZoomAndPan.mkState z (useZoomAndPan.mkPoint (Num px) (Num py)) d ds) =
  useZoomAndPan.mkState z
    (useZoomAndPan.mkPoint (Num (px + (x1 - x0))%Qc) (Num (py + (y1 - y0))%Qc))
    false
    (useZoomAndPan.mkPoint (Num (x0 - px)%Qc) (Num (y0 - py)%Qc)).
Proof.
  unfold View.run. cbn [fold_left View.step].
  rewrite !fold_left_app. unfold useZoomAndPan.handleMouseDown.
  cbn [useZoomAndPan.zoom useZoomAndPan.pan useZoomAndPan.x useZoomAndPan.y sub].
  destruct (run_moves_dragging path z
              (useZoomAndPan.mkPoint (Num px) (Num py))
              (useZoomAndPan.mkPoint (Num (x0 - px)%Qc) (Num (y0 - py)%Qc)))
    as (p' & Hp').
  unfold View.run in Hp'. rewrite Hp'.
  cbn [fold_left View.step].
  unfold useZoomAndPan.handleMouseMove, useZoomAndPan.handleMouseUp,
    useZoomAndPan.setPan.
  cbn [useZoomAndPan.isDragging useZoomAndPan.zoom useZoomAndPan.pan
       useZoomAndPan.dragStart useZoomAndPan.x useZoomAndPan.y negb sub].
  fold (View.run (map moveTo later)
          (useZoomAndPan.mkState z
             (useZoomAndPan.mkPoint (Num (x1 - (x0 - px))%Qc)
                (Num (y1 - (y0 - py))%Qc))
             false
             (useZoomAndPan.mkPoint (Num (x0 - px)%Qc) (Num (y0 - py)%Qc)))).
  rewrite run_moves_idle by reflexivity.
  replace (x1 - (x0 - px))%Qc with (px + (x1 - x0))%Qc by ring.
  replace (y1 - (y0 - py))%Qc with (py + (y1 - y0))%Qc by ring.
  reflexivity.
Qed.

(* ================================================================== *)
(** ** Tooltips *)

Lemma Forall_firstn (A : Type) (Q : A -> Prop) (n : nat) (l : list A) :
  Forall Q l -> Forall Q (firstn n l).
Proof.
  revert n. induction l as [| a l IH]; intros n H.
  - destruct n; constructor.
  - destruct n; [constructor |]. inversion H; subst.
    cbn [firstn]. constructor; [assumption | apply IH; assumption].
Qed.

Lemma Forall_skipn (A : Type) (Q : A -> Prop) (n : nat) (l : list A) :
  Forall Q l -> Forall Q (skipn n l).
Proof.
  revert n. induction l as [| a l IH]; intros n H.
  - destruct n; constructor.
  - destruct n; [exact H |]. inversion H; subst.
    cbn [skipn]. apply IH. assumption.
Qed.

Lemma isActive_true (active : option String.string) (key : String.string) :
  TooltipTriggerIcon.isActive active key = true -> active = Some key.
Proof.
  destruct active as [k |]; [| discriminate].
  cbn. intros H. apply String.eqb_eq in H. congruence.
Qed.

Lemma openIsActive_notify (s : TooltipTriggerIcon.State) :
  openIsActive (TooltipTriggerIcon.notifyTooltipChange s).
Proof.
  unfold openIsActive, TooltipTriggerIcon.notifyTooltipChange.
  cbn [TooltipTriggerIcon.instances TooltipTriggerIcon.activeTooltipKey].
  apply Forall_map, Forall_forall. intros i _.
  cbn [TooltipTriggerIcon.updateTooltipState TooltipTriggerIcon.isTooltipOpen
       TooltipTriggerIcon.paramKey].
  apply isActive_true.
Qed.

Lemma openIsActive_step (s : TooltipTriggerIcon.State)
    (e : TooltipTriggerIcon.Event) :
  openIsActive s -> openIsActive (TooltipTriggerIcon.step s e).
Proof.
  intros Hs. destruct e as [key | n | key | key]; cbn [TooltipTriggerIcon.step].
  - unfold openIsActive, TooltipTriggerIcon.mount.
    cbn [TooltipTriggerIcon.instances TooltipTriggerIcon.activeTooltipKey].
    apply Forall_app. split; [exact Hs |].
    constructor; [discriminate | constructor].
  - unfold openIsActive, TooltipTriggerIcon.unmount.
    cbn [TooltipTriggerIcon.instances TooltipTriggerIcon.activeTooltipKey].
    apply Forall_app. split; [apply Forall_firstn | apply Forall_skipn]; exact Hs.
  - apply openIsActive_notify.
  - unfold TooltipTriggerIcon.handleCloseTooltip.
    destruct (TooltipTriggerIcon.isActive _ key);
      [apply openIsActive_notify | exact Hs].
Qed.

Lemma openIsActive_run (es : list TooltipTriggerIcon.Event) :
  forall s, openIsActive s -> openIsActive (TooltipTriggerIcon.run es s).
Proof.
  unfold TooltipTriggerIcon.run.
  induction es as [| e es IH]; intros s Hs; [exact Hs |].
  cbn [fold_left]. apply IH, openIsActive_step, Hs.
Qed.

(** X8. At most one tooltip is open at a time.  However icons are mounted
    and unmounted and tooltips opened and closed, every icon whose tooltip
    is open carries the key that the module-level [activeTooltipKey] holds;
    so two icons with open tooltips have the same key. *)
Theorem one_tooltip_open (es : list TooltipTriggerIcon.Event) :
  let s := TooltipTriggerIcon.run es TooltipTriggerIcon.initial in
  openIsActive s /\
  forall i j,
    In i (TooltipTriggerIcon.instances s) ->
    In j (TooltipTriggerIcon.instances s) ->
    TooltipTriggerIcon.isTooltipOpen i = true ->
    TooltipTriggerIcon.isTooltipOpen j = true ->
    TooltipTriggerIcon.paramKey i = TooltipTriggerIcon.paramKey j.
Proof.
  cbv zeta.
  assert (H : openIsActive
                (TooltipTriggerIcon.run es TooltipTriggerIcon.initial))
    by (apply openIsActive_run; constructor).
  split; [exact H |].
  intros i j Hi Hj Oi Oj. unfold openIsActive in H.
  rewrite Forall_forall in H.
  pose proof (H i Hi Oi) as Ei. pose proof (H j Hj Oj) as Ej.
  congruence.
Qed.

(* ================================================================== *)
(** ** What a frame reads *)

Section Reads.

Variable sin : Qc -> Qc.

(** A turn of the loop reads [params] for [damping] and [gravity] only. *)
Lemma integrate_ext p p' L l :
  P.gravity p = P.gravity p' -> P.damping p = P.damping p' ->
  V.integrate sin p L l = V.integrate sin p' L l.
Proof.
  intros Hg Hd. unfold V.integrate, V.acceleration. rewrite Hg, Hd. reflexivity.
Qed.

Lemma loopBody_ext p p' L l :
  P.gravity p = P.gravity p' -> P.damping p = P.damping p' ->
  V.loopBody sin p L l = V.loopBody sin p' L l.
Proof.
  intros Hg Hd. unfold V.loopBody. rewrite (integrate_ext p p' L l Hg Hd).
  reflexivity.
Qed.

Lemma whileLoop_ext p p' L fuel :
  P.gravity p = P.gravity p' -> P.damping p = P.damping p' ->
  forall l, V.whileLoop sin fuel p L l = V.whileLoop sin fuel p' L l.
Proof.
  intros Hg Hd. induction fuel as [| fuel IH]; intros l; cbn [V.whileLoop].
  - reflexivity.
  - rewrite (loopBody_ext p p' L l Hg Hd), IH. reflexivity.
Qed.

Lemma scaledLength_ext p p' cw ch :
  P.length p = P.length p' -> V.scaledLength p cw ch = V.scaledLength p' cw ch.
Proof. intros H. unfold V.scaledLength. rewrite H. reflexivity. Qed.

(** X10. During a frame the engine reads the store for [length], [gravity],
    [damping] and [isPlaying], and for nothing else: two stores that agree
    on these four give the same angle, velocity and accumulator after
    [advance], whatever their mass, starting angle, time interval,
    simulation speed, [currentAngle] and [currentVelocity] are.  (The time
    interval and the simulation speed were read once, when the effect
    started.) *)
Theorem advance_reads_four_keys (fuel : nat) (frameTime cw ch : number)
    (c c' : Provider.State) (l : V.Locals) :
  P.length (Provider.params c) = P.length (Provider.params c') ->
  P.gravity (Provider.params c) = P.gravity (Provider.params c') ->
  P.damping (Provider.params c) = P.damping (Provider.params c') ->
  Provider.isPlaying c = Provider.isPlaying c' ->
  option_map snd (V.advance sin fuel frameTime cw ch (c, l)) =
  option_map snd (V.advance sin fuel frameTime cw ch (c', l)).
Proof.
  intros Hl Hg Hd Hp. unfold V.advance. rewrite <- Hp.
  rewrite (scaledLength_ext _ _ cw ch Hl).
  rewrite (whileLoop_ext _ _ _ fuel Hg Hd).
  destruct (Provider.isPlaying c); [| reflexivity].
  destruct (V.whileLoop _ _ _ _ _); reflexivity.
Qed.

End Reads.

Lemma advance_reads_four_keys_witness :
  (P.length (Provider.params (App.context (scenario (Q2Qc 400) (Q2Qc 400)))) =
     P.length (Provider.params (App.context heavyPlaying)) /\
   P.gravity (Provider.params (App.context (scenario (Q2Qc 400) (Q2Qc 400)))) =
     P.gravity (Provider.params (App.context heavyPlaying)) /\
   P.damping (Provider.params (App.context (scenario (Q2Qc 400) (Q2Qc 400)))) =
     P.damping (Provider.params (App.context heavyPlaying)) /\
   Provider.isPlaying (App.context (scenario (Q2Qc 400) (Q2Qc 400))) =
     Provider.isPlaying (App.context heavyPlaying)) /\
  option_map snd
    (V.advance sinSeries2 10 (lit 0.1) (lit 400) (lit 400)
       (App.context (scenario (Q2Qc 400) (Q2Qc 400)),
        App.locals heavyPlaying)) =
  option_map snd
    (V.advance sinSeries2 10 (lit 0.1) (lit 400) (lit 400)
       (App.context heavyPlaying, App.locals heavyPlaying)).
Proof.
  split; [repeat split |].
  exact (advance_reads_four_keys sinSeries2 10 (lit 0.1) (lit 400) (lit 400)
           (App.context (scenario (Q2Qc 400) (Q2Qc 400)))
           (App.context heavyPlaying) (App.locals heavyPlaying)
           eq_refl eq_refl eq_refl eq_refl).
Defined.

(** *** The same time in binary64 *)

(** X12. In binary64, the numbers of JavaScript, frames do not add up.
    With the default [dt] 0.01 and an empty accumulator, three frames 10 ms
    apart make three turns of the loop (one each), but one frame of 30 ms
    makes two: 30 / 1000 is the binary64 number just below 0.03, and after
    two subtractions of 0.01 what is left is just below 0.01 (within 1e-13
    of it).  In both runs
    the frame times are exactly the binary64 numbers nearest to 0.01 and
    0.03. *)
Lemma frame_split_binary64 :
  Binary64.frameTime 10 0 = Binary64.hundredth /\
  Binary64.frameTime 30 0 = Binary64.threeHundredths /\
  (exists rest,
     Binary64.frames 5 Binary64.hundredth [10; 20; 30]%float 0%float 0%float 0
       = Some (3%nat, rest) /\
     PrimFloat.eqb rest 0%float = true) /\
  (exists rest,
     Binary64.frames 5 Binary64.hundredth [30%float] 0%float 0%float 0
       = Some (2%nat, rest) /\
     PrimFloat.ltb rest Binary64.hundredth = true /\
     PrimFloat.ltb 0x1.47ae147ae1p-7%float rest = true).
Proof.
  split; [vm_compute; reflexivity |]. split; [vm_compute; reflexivity |].
  split; eexists; (split; [vm_compute; reflexivity |]);
    repeat split; vm_compute; reflexivity.
Qed.

(* ================================================================== *)
(** ** The first frame after a start *)

Lemma whileLoop_stop (sin : Qc -> Qc) fuel p L l :
  (V.accumulator l >=? V.dt l) = false -> V.whileLoop sin fuel p L l = Some l.
Proof. intros H. destruct fuel; cbn [V.whileLoop]; rewrite H; reflexivity. Qed.

Lemma zero_frame (q : Qc) : lit 0 + (Num q - Num q) / lit 1000 = lit 0.
Proof.
  unfold lit. cbn [sub].
  rewrite div_Num by (apply Qc_nonzero; vm_compute; reflexivity).
  cbn [add]. f_equal. field. apply Qc_nonzero. vm_compute. reflexivity.
Qed.

Lemma restarts_justStarted (sin : Qc -> Qc) fuel e w w1 :
  restarts e = true -> App.step sin fuel e w = Some w1 -> justStarted w1.
Proof.
  destruct e; try discriminate; intros _ [= <-]; reflexivity.
Qed.

Section FirstFrame.

Variable sin : Qc -> Qc.

(** X13. The first animation frame after a start of the main effect makes
    no integration step, playing or not and whatever its timestamp: in a
    reachable world whose effect has just started (after construction, a
    parameter write, a reset, a resize or a change of image), [draw] returns
    for every fuel, the angle and the velocity are still the starting ones,
    the timestamp is recorded, and with a numeric timestamp the accumulator
    is still 0.  The time that passed before that frame is never
    simulated. *)
Theorem first_frame_makes_no_step (w : App.World) (fuel : nat)
    (timestamp : number) :
  App.reachable sin w ->
  justStarted w ->
  exists w',
    App.draw sin fuel timestamp w = Some w' /\
    App.kinematicState w' = App.kinematicState w /\
    App.kinematicState w =
      ((P.startingAngle (Provider.params (App.context w)) * Math_PI) / lit 180,
       lit 0) /\
    V.lastTimestamp (App.locals w') = Some timestamp /\
    (isNum timestamp -> V.accumulator (App.locals w') = lit 0).
Proof.
  intros Hreach Hstart. apply reachable_wellFormed in Hreach.
  pose proof (wellFormed_dtFloored w Hreach) as Hdt.
  assert (Hkin : App.kinematicState w =
                 ((P.startingAngle (Provider.params (App.context w)) * Math_PI)
                    / lit 180, lit 0)).
  { unfold App.kinematicState. rewrite Hstart. reflexivity. }
  assert (Hacc : V.accumulator (App.locals w) = lit 0)
    by (rewrite Hstart; reflexivity).
  assert (Hft : frameTimeAt timestamp (App.locals w) =
                (timestamp - timestamp) / lit 1000).
  { unfold frameTimeAt. rewrite Hstart. reflexivity. }
  rewrite draw_advance, Hft.
  destruct (Provider.isPlaying (App.context w)) eqn:Hp.
  - eexists. split.
    + apply advance_playing_runs; [exact Hp |].
      apply whileLoop_stop.
      cbn [stamped App.locals V.setAccumulator V.setLastTimestamp
           V.accumulator V.dt].
      rewrite Hacc.
      destruct timestamp as [| q]; [reflexivity |].
      rewrite zero_frame.
      destruct Hdt as [-> | (d & -> & Hd)]; [reflexivity |].
      apply ge_Num_false. qc_order.
    + cbn [App.kinematicState App.locals stamped V.setAccumulator
           V.setLastTimestamp V.currentAngle V.currentVelocity V.lastTimestamp
           V.accumulator].
      split; [reflexivity |]. split; [exact Hkin |]. split; [reflexivity |].
      intros Ht. destruct timestamp as [| q]; [contradiction |].
      rewrite Hacc. apply zero_frame.
  - exists (stamped timestamp w). split; [apply advance_paused; exact Hp |].
    split; [reflexivity |]. split; [exact Hkin |]. split; [reflexivity |].
    intros _. exact Hacc.
Qed.

End FirstFrame.

Lemma first_frame_makes_no_step_witness :
  (App.reachable sinSeries2 moonPlaying /\ justStarted moonPlaying) /\
  exists w',
    App.draw sinSeries2 0 (lit 5000) moonPlaying = Some w' /\
    App.kinematicState w' = App.kinematicState moonPlaying.
Proof.
  split; [split; [apply reachable_moonPlaying | reflexivity] |].
  destruct (first_frame_makes_no_step sinSeries2 moonPlaying 0 (lit 5000)
              (reachable_moonPlaying sinSeries2) eq_refl)
    as (w' & Hrun & Hkin & _).
  exists w'. split; assumption.
Defined.

(* ================================================================== *)
(** ** The pendulum at rest *)

Lemma pair_zero (x y : Qc) :
  x = Q2Qc 0 -> y = Q2Qc 0 -> (Num x, Num y) = (lit 0, lit 0).
Proof. intros -> ->. reflexivity. Qed.

Section Rest.

Variable sin : Qc -> Qc.
Hypothesis sin_zero : sin (Q2Qc 0) = Q2Qc 0.

Lemma pendulum_rest (g L damping : Qc) :
  L <> Q2Qc 0 ->
  Spec.pendulum sin (Num g) (Num L) (Num damping) (lit 0, lit 0) = (lit 0, lit 0).
Proof.
  intros HL. unfold Spec.pendulum, Spec.acceleration, lit. cbn [fst snd neg].
  rewrite (div_Num _ _ HL). cbn [Math_sin mul sub]. rewrite sin_zero.
  apply pair_zero; [reflexivity | ring].
Qed.

Lemma vscale_rest (k : Qc) : Spec.vscale (Num k) (lit 0, lit 0) = (lit 0, lit 0).
Proof. unfold Spec.vscale, lit. cbn [fst snd mul]. apply pair_zero; ring. Qed.

Lemma vadd_rest : Spec.vadd (lit 0, lit 0) (lit 0, lit 0) = (lit 0, lit 0).
Proof. unfold Spec.vadd, lit. cbn [fst snd add]. apply pair_zero; ring. Qed.

Lemma div_lit (h : Qc) (n : Q) :
  Qeq_bool (this (Q2Qc n)) 0 = false -> Num h / lit n = Num (h / Q2Qc n)%Qc.
Proof. intros H. unfold lit. apply div_Num, Qc_nonzero, H. Qed.

Lemma step_rest (damping g L h : Qc) :
  L <> Q2Qc 0 ->
  Spec.step sin (Num damping) (Num g) (Num L) (Num h) (lit 0, lit 0) =
  (lit 0, lit 0).
Proof.
  intros HL. unfold Spec.step. destruct (Num damping === lit 0).
  - unfold lit. rewrite (semiImplicitEuler_Num sin _ _ _ _ _ HL), sin_zero.
    apply pair_zero; field; exact HL.
  - unfold Spec.rk4Step, Spec.RK4.
    rewrite !(div_lit h) by (vm_compute; reflexivity).
    rewrite (pendulum_rest g L damping HL).
    repeat rewrite ?vscale_rest, ?vadd_rest, ?(pendulum_rest g L damping HL).
    fold (lit 2). rewrite ?vscale_rest.
    repeat rewrite ?vscale_rest, ?vadd_rest.
    reflexivity.
Qed.

(** X14. A pendulum that hangs straight down and does not move stays so.
    If the sine of 0 is 0, then in a reachable world in which everything a
    step reads is a number and the angle and the velocity are both 0,
    [advance] returns, for every frame time, a world in which they are
    still both 0: the state of rest is a fixed point of the semi-implicit
    Euler step and of the RK4 step alike. *)
Theorem rest_stays_at_rest (w : App.World) (frameTime : number) (fuel : nat) :
  App.reachable sin w ->
  numericSetup w ->
  atRest w ->
  (fuelFor (V.accumulator (App.locals w) + frameTime) <= fuel)%nat ->
  exists w', App.advance sin fuel frameTime w = Some w' /\ atRest w'.
Proof.
  intros Hreach (Hg & Hdm & HL & Hd & Hs) Hrest Hfuel.
  apply reachable_wellFormed in Hreach.
  pose proof (wellFormed_dtFloored w Hreach) as Hdt.
  destruct (Provider.isPlaying (App.context w)) eqn:Hp;
    [| exists w; split; [apply advance_paused, Hp | exact Hrest]].
  set (params := Provider.params (App.context w)) in *.
  set (L := V.scaledLength params (App.canvasWidth w) (App.canvasHeight w)) in *.
  set (l1 := V.setAccumulator (V.accumulator (App.locals w) + frameTime)
               (App.locals w)).
  destruct (whileLoop_terminates sin params L l1 Hdt fuel Hfuel) as (l' & Hl').
  exists {| App.context :=
              Provider.writeKinematics (V.currentAngle l') (V.currentVelocity l')
                (App.context w);
            App.canvasWidth := App.canvasWidth w;
            App.canvasHeight := App.canvasHeight w;
            App.resetTrigger := App.resetTrigger w;
            App.locals := l' |}.
  split; [apply advance_playing_runs; [exact Hp | exact Hl'] |].
  destruct (P.gravity params) as [| g] eqn:Eg; [contradiction |].
  destruct (P.damping params) as [| dm] eqn:Edm; [contradiction |].
  destruct (scaledLength_cases params (App.canvasWidth w) (App.canvasHeight w))
    as [E | (c & Ec & Hc)];
    [fold L in E; rewrite E in HL; contradiction | fold L in Ec].
  destruct (V.dt (App.locals w)) as [| d] eqn:Ed; [contradiction |].
  destruct (V.simulationSpeed (App.locals w)) as [| s] eqn:Es; [contradiction |].
  destruct (Math_max_Num g (Q2Qc 0.01)) as (g' & Hg' & _).
  apply (whileLoop_invariant sin params L
           (fun x => kinematics x = (lit 0, lit 0) /\
                     V.dt x = Num d /\ V.simulationSpeed x = Num s)) in Hl'.
  - unfold atRest. cbn [App.kinematicState App.locals]. apply Hl'.
  - intros x (Hk & Hdx & Hsx) _.
    rewrite loopBody_kinematics, loopBody_dt, loopBody_simulationSpeed.
    split; [| split; assumption].
    unfold effectiveStep, stepGravity. rewrite Hk, Hdx, Hsx, Eg, Edm, Ec.
    unfold lit at 1. rewrite Hg'. cbn [mul].
    apply step_rest, one_le_nonzero, Hc.
  - split; [exact Hrest | split; [exact Ed | exact Es]].
Qed.

End Rest.

Lemma rest_stays_at_rest_witness :
  (sinSeries2 (Q2Qc 0) = Q2Qc 0 /\ App.reachable sinSeries2 restPlaying /\
   numericSetup restPlaying /\ atRest restPlaying) /\
  exists w', App.advance sinSeries2 101 (lit 0.1) restPlaying = Some w' /\ atRest w'.
Proof.
  assert (Hsin : sinSeries2 (Q2Qc 0) = Q2Qc 0) by qc_eval.
  assert (Hreach : App.reachable sinSeries2 restPlaying).
  { exists O,
      [App.SetParams
         (SettingsPanel.handleInputChange SettingsPanel.startingAngle (lit 0));
       App.SetIsPlaying true].
    reflexivity. }
  assert (Hnum : numericSetup restPlaying) by (vm_compute; tauto).
  assert (Hrest : atRest restPlaying).
  { unfold atRest.
    change (App.kinematicState restPlaying) with
      (Num (Q2Qc 0 * Q2Qc (884279719003555 # 281474976710656) / Q2Qc 180)%Qc,
       Num (Q2Qc 0)).
    apply pair_zero; [qc_eval | reflexivity]. }
  split; [repeat split; assumption |].
  apply (rest_stays_at_rest sinSeries2 Hsin restPlaying (lit 0.1) 101
           Hreach Hnum Hrest).
  vm_compute. lia.
Defined.

(* ================================================================== *)
(** ** A state that is not a number *)

Lemma sub_NaN_r (x : number) : x - NaN = NaN.
Proof. destruct x; reflexivity. Qed.

Ltac nan_simpl :=
  repeat (rewrite ?mul_NaN_r, ?add_NaN_r, ?sub_NaN_r;
          cbn [add mul div sub neg Math_sin fst snd]).

Section NaNState.

Variable sin : Qc -> Qc.

Lemma step_NaN_angle (damping g L h v : number) :
  Spec.step sin damping g L h (NaN, v) = (NaN, NaN).
Proof.
  unfold Spec.step. destruct (damping === lit 0).
  - unfold Spec.semiImplicitEuler. nan_simpl. reflexivity.
  - unfold Spec.rk4Step, Spec.RK4, Spec.pendulum, Spec.acceleration,
      Spec.vadd, Spec.vscale.
    nan_simpl. reflexivity.
Qed.

Lemma step_NaN_velocity (damping g L h a : number) :
  Spec.step sin damping g L h (a, NaN) = (NaN, NaN).
Proof.
  unfold Spec.step. destruct (damping === lit 0).
  - unfold Spec.semiImplicitEuler. nan_simpl. reflexivity.
  - unfold Spec.rk4Step, Spec.RK4, Spec.pendulum, Spec.acceleration,
      Spec.vadd, Spec.vscale.
    nan_simpl. reflexivity.
Qed.

Lemma step_NaN_state (damping g L h : number) (s : Spec.State) :
  fst s = NaN \/ snd s = NaN ->
  Spec.step sin damping g L h s = (NaN, NaN).
Proof.
  destruct s as [a v]. cbn [fst snd].
  intros [-> | ->]; [apply step_NaN_angle | apply step_NaN_velocity].
Qed.

(** X15. A state that is not a number is never left by integrating.  When
    the angle or the velocity is NaN, one turn of the loop makes both NaN,
    with either scheme and whatever the parameters are, and they stay NaN
    for every further turn: only a restart of the effect brings numbers
    back. *)
Theorem nan_is_absorbing (params : P.SimulatorParams) (L : number)
    (l : V.Locals) (n : nat) :
  V.currentAngle l = NaN \/ V.currentVelocity l = NaN ->
  kinematics (Nat.iter (S n) (V.loopBody sin params L) l) = (NaN, NaN).
Proof.
  intros H. induction n as [| n IH].
  - cbn [Nat.iter nat_rect]. rewrite loopBody_kinematics.
    apply step_NaN_state. exact H.
  - rewrite iter_S, loopBody_kinematics.
    apply step_NaN_state. left. rewrite IH. reflexivity.
Qed.

End NaNState.

Lemma nan_is_absorbing_witness :
  (V.currentAngle (V.setKinematics NaN (lit 0) (App.locals moonPlaying)) = NaN \/
   V.currentVelocity (V.setKinematics NaN (lit 0) (App.locals moonPlaying)) = NaN) /\
  kinematics
    (Nat.iter 3
       (V.loopBody sinSeries2 P.defaultParams (lit 160))
       (V.setKinematics NaN (lit 0) (App.locals moonPlaying))) = (NaN, NaN).
Proof.
  split; [left; reflexivity |].
  exact (nan_is_absorbing sinSeries2 P.defaultParams (lit 160)
           (V.setKinematics NaN (lit 0) (App.locals moonPlaying)) 2
           (or_introl eq_refl)).
Defined.

(* ================================================================== *)
(** ** The floors of the engine and the clamps of the store *)

Lemma whileLoop_simulationSpeed (sin : Qc -> Qc) p L fuel l l' :
  V.whileLoop sin fuel p L l = Some l' ->
  V.simulationSpeed l' = V.simulationSpeed l.
Proof.
  intros H.
  apply (whileLoop_invariant sin p L
           (fun x => V.simulationSpeed x = V.simulationSpeed l)) in H;
    [tauto | | reflexivity].
  intros x Hx _. rewrite loopBody_simulationSpeed. exact Hx.
Qed.

Section Floors.

Variable sin : Qc -> Qc.

Lemma speedFromParams_advance fuel frameTime w w' :
  speedFromParams w -> App.advance sin fuel frameTime w = Some w' ->
  speedFromParams w'.
Proof.
  unfold speedFromParams. intros Hs Hrun.
  destruct (Provider.isPlaying (App.context w)) eqn:Hp.
  - destruct (advance_playing sin _ _ _ _ Hp Hrun) as (l' & Hl' & ->).
    apply whileLoop_simulationSpeed in Hl'.
    cbn [App.context App.locals]. rewrite writeKinematics_params, Hl'.
    exact Hs.
  - rewrite (advance_paused sin _ _ _ Hp) in Hrun. injection Hrun as <-.
    exact Hs.
Qed.

Lemma speedFromParams_step fuel e w w' :
  speedFromParams w -> App.step sin fuel e w = Some w' -> speedFromParams w'.
Proof.
  intros Hs Hstep. destruct e; cbn [App.step] in Hstep;
    try (injection Hstep as <-; first [exact Hs | reflexivity]).
  - rewrite draw_advance in Hstep.
    apply (speedFromParams_advance _ _ (stamped timestamp w) _ Hs Hstep).
  - apply (speedFromParams_advance _ _ _ _ Hs Hstep).
Qed.

Lemma speedFromParams_run fuel es :
  forall w w',
    speedFromParams w -> App.run sin fuel es w = Some w' -> speedFromParams w'.
Proof.
  induction es as [| e es IH]; intros w w' Hs Hrun; cbn in Hrun.
  - injection Hrun as <-. exact Hs.
  - destruct (App.step sin fuel e w) as [w1 |] eqn:E; [| discriminate].
    apply (IH w1); [eapply speedFromParams_step; eassumption | exact Hrun].
Qed.

(** X16. In every reachable world the floors the engine applies for itself
    find nothing to raise, because the store has clamped already: the
    gravity of a step, [Math.max(params.gravity, 0.01)], is
    [params.gravity]; the effect's [dt], [Math.max(params.timeInterval,
    0.001)], is [params.timeInterval]; its [simulationSpeed],
    [Math.max(params.simulationSpeed, 0.1)], is [params.simulationSpeed];
    so the effective step is [params.timeInterval *
    params.simulationSpeed]. *)
Theorem engine_floors_are_idle (w : App.World) :
  App.reachable sin w ->
  let params := Provider.params (App.context w) in
  stepGravity params = P.gravity params /\
  V.dt (App.locals w) = P.timeInterval params /\
  V.simulationSpeed (App.locals w) = P.simulationSpeed params /\
  effectiveStep (App.locals w) =
    P.timeInterval params * P.simulationSpeed params.
Proof.
  intros Hreach params.
  pose proof (reachable_respectsMinimums sin w Hreach)
    as (_ & _ & Hg & _ & Hti & Hsp).
  pose proof (reachable_wellFormed sin w Hreach) as (_ & _ & Hdt).
  assert (Hs : speedFromParams w).
  { destruct Hreach as (fuel & es & Hrun).
    apply (speedFromParams_run fuel es App.initial w); [reflexivity | exact Hrun]. }
  unfold speedFromParams in Hs. fold params in Hg, Hti, Hsp, Hdt, Hs.
  assert (E1 : stepGravity params = P.gravity params)
    by (apply Math_max_idle; exact Hg).
  assert (E2 : V.dt (App.locals w) = P.timeInterval params)
    by (rewrite Hdt; apply Math_max_idle; exact Hti).
  assert (E3 : V.simulationSpeed (App.locals w) = P.simulationSpeed params)
    by (rewrite Hs; apply Math_max_idle; exact Hsp).
  split; [exact E1 |]. split; [exact E2 |]. split; [exact E3 |].
  unfold effectiveStep. rewrite E2, E3. reflexivity.
Qed.

End Floors.

Lemma engine_floors_are_idle_witness :
  App.reachable sinSeries2 moonPlaying /\
  stepGravity (Provider.params (App.context moonPlaying)) =
    P.gravity (Provider.params (App.context moonPlaying)) /\
  V.dt (App.locals moonPlaying) =
    P.timeInterval (Provider.params (App.context moonPlaying)).
Proof.
  split; [apply reachable_moonPlaying |].
  pose proof (engine_floors_are_idle sinSeries2 moonPlaying
                (reachable_moonPlaying sinSeries2)) as (H1 & H2 & _).
  split; [exact H1 | exact H2].
Defined.

(* ================================================================== *)
(** ** The numbers of the "Physics Calculations" panel *)

Lemma add_assoc_distr (a v y h : number) : a + (v + y) * h = a + v * h + y * h.
Proof. destruct a, v, y, h; cbn; try reflexivity. f_equal. ring. Qed.

Section Panel.

Variable sin : Qc -> Qc.

(** X17. Without damping the "Physics Calculations" panel shows another
    update than the engine makes.  Its new velocity is the velocity of the
    semi-implicit Euler step for the length [params.length / 100], the
    stored gravity and the step [timeInterval * simulationSpeed]; but its
    new angle is computed from the old velocity,
    [prevAngle + prevVelocity * effectiveDT], and so falls short of the
    angle of that step by [velocityChange * effectiveDT]. *)
Theorem codePanel_shows_explicit_euler
    (currentAngle currentVelocity prevAngle prevVelocity : number)
    (params : P.SimulatorParams) :
  (P.damping params === lit 0) = true ->
  exists acceleration velocityChange newVelocity angleChange newAngle,
    let effectiveDT := P.timeInterval params * P.simulationSpeed params in
    CodePanel.updateCalculationSteps sin currentAngle currentVelocity
      prevAngle prevVelocity params =
    CodePanel.NoDamping effectiveDT acceleration velocityChange newVelocity
      angleChange newAngle /\
    newAngle = prevAngle + prevVelocity * effectiveDT /\
    Spec.semiImplicitEuler sin (P.gravity params) (P.length params / lit 100)
      effectiveDT (prevAngle, prevVelocity) =
    (newAngle + velocityChange * effectiveDT, newVelocity).
Proof.
  intros Hd. unfold CodePanel.updateCalculationSteps. rewrite Hd.
  do 5 eexists. cbv zeta. split; [reflexivity |]. split; [reflexivity |].
  unfold Spec.semiImplicitEuler. rewrite add_assoc_distr. reflexivity.
Qed.

End Panel.

Lemma codePanel_shows_explicit_euler_witness :
  (P.damping P.defaultParams === lit 0) = true /\
  exists acceleration velocityChange newVelocity angleChange newAngle,
    CodePanel.updateCalculationSteps sinSeries2 (lit 1) (lit 2) (lit 1) (lit 2)
      P.defaultParams =
    CodePanel.NoDamping (P.timeInterval P.defaultParams *
                         P.simulationSpeed P.defaultParams)
      acceleration velocityChange newVelocity angleChange newAngle /\
    newAngle =
      lit 1 + lit 2 * (P.timeInterval P.defaultParams *
                       P.simulationSpeed P.defaultParams).
Proof.
  split; [reflexivity |].
  destruct (codePanel_shows_explicit_euler sinSeries2 (lit 1) (lit 2) (lit 1)
              (lit 2) P.defaultParams eq_refl)
    as (a & dv & nv & da & na & H1 & H2 & _).
  exists a, dv, nv, da, na. split; [exact H1 | exact H2].
Defined.

(* ================================================================== *)
(** ** The previews of a tooltip *)

Lemma mul_one_minus_zero (x : number) (d : Qc) :
  x * (lit 1 - lit 0 * Num d) = x.
Proof.
  destruct x as [| a]; [reflexivity |].
  unfold lit. cbn [mul sub]. f_equal. ring.
Qed.

Lemma Math_min_capped (x : number) (m : Qc) :
  Math_min x (Num m) = NaN \/
  exists f, Math_min x (Num m) = Num f /\ (f <= m)%Qc.
Proof.
  destruct x as [| a]; [left; reflexivity | right].
  destruct (Math_min_Num a m) as (c & Hc & _ & Hle & _).
  exists c. split; [exact Hc | exact Hle].
Qed.

Section Previews.

Variable sin : Qc -> Qc.

(** X18. Without damping a preview advances by the engine's own formula: a
    turn of a preview's loop is the semi-implicit Euler step with gravity
    [Math.max(gravity, 0.01)], with the length the engine would use on a
    canvas of 150 by 150 pixels, and with the step [dt * simSpeed]; and it
    takes [dt] off the preview's accumulator.  (With damping the preview
    multiplies the velocity by [1 - damping * dt] first, where the engine
    makes an RK4 step.) *)
Theorem preview_step_is_engine_step (simParams : P.SimulatorParams) (d : Qc)
    (simSpeed : number) (p : SimulationTooltip.Pendulum) :
  P.damping simParams = lit 0 ->
  previewState (SimulationTooltip.loopBody sin simParams (Num d) simSpeed p) =
    Spec.semiImplicitEuler sin (stepGravity simParams)
      (V.scaledLength simParams SimulationTooltip.canvasWidth
         SimulationTooltip.canvasHeight)
      (Num d * simSpeed) (previewState p) /\
  SimulationTooltip.accumulator
    (SimulationTooltip.loopBody sin simParams (Num d) simSpeed p) =
    SimulationTooltip.accumulator p - Num d.
Proof.
  intros Hd.
  unfold previewState, SimulationTooltip.loopBody, Spec.semiImplicitEuler.
  cbn [SimulationTooltip.angle SimulationTooltip.velocity
       SimulationTooltip.accumulator].
  rewrite Hd, mul_one_minus_zero. split; reflexivity.
Qed.

Lemma preview_whileLoop_stop fuel sp dt speed p :
  (SimulationTooltip.accumulator p >=? dt) = false ->
  SimulationTooltip.whileLoop sin fuel sp dt speed p = Some p.
Proof.
  intros H. destruct fuel; cbn [SimulationTooltip.whileLoop]; rewrite H;
    reflexivity.
Qed.

(** With less than [n + 1] steps of time in the accumulator, [n] turns are
    enough. *)
Lemma preview_whileLoop_bounded sp (d : Qc) speed n :
  forall p a,
    SimulationTooltip.accumulator p = Num a ->
    (this a < (inject_Z (Z.of_nat n) + 1) * this d)%Q ->
    exists p',
      SimulationTooltip.whileLoop sin n sp (Num d) speed p = Some p' /\
      previewDrained d p'.
Proof.
  induction n as [| n IH]; intros p a Ha Hlt.
  - change (inject_Z (Z.of_nat 0)) with 0%Q in Hlt.
    assert (E : (SimulationTooltip.accumulator p >=? Num d) = false).
    { rewrite Ha. apply ge_Num_false. unfold Qclt. lra. }
    exists p. split; [apply preview_whileLoop_stop, E |].
    right. exists a. split; [exact Ha |]. unfold Qclt. lra.
  - destruct (SimulationTooltip.accumulator p >=? Num d) eqn:E.
    + cbn [SimulationTooltip.whileLoop]. rewrite E.
      apply (IH _ (a - d)%Qc).
      * cbn [SimulationTooltip.loopBody SimulationTooltip.accumulator].
        rewrite Ha. reflexivity.
      * rewrite Ha in E. apply ge_Num in E. unfold Qcle in E.
        rewrite this_sub. rewrite Nat2Z.inj_succ in Hlt. unfold Z.succ in Hlt.
        rewrite inject_Z_plus in Hlt. change (inject_Z 1) with 1%Q in Hlt.
        set (K := inject_Z (Z.of_nat n)) in *. nra.
    + exists p. split; [apply preview_whileLoop_stop, E |].
      right. exists a. split; [exact Ha |].
      rewrite Ha in E. apply ge_Num_false in E. exact E.
Qed.

Lemma preview_advance_bounded paramKey sp frameTime p :
  SimulationTooltip.isTimeInterval paramKey = false ->
  (frameTime = NaN \/ exists f, frameTime = Num f /\ (f <= Q2Qc 0.1)%Qc) ->
  previewDrained (Q2Qc 0.01) p ->
  exists p',
    SimulationTooltip.advance sin 10 paramKey sp frameTime p = Some p' /\
    previewDrained (Q2Qc 0.01) p'.
Proof.
  intros Hk Hf Hp. unfold SimulationTooltip.advance, SimulationTooltip.dtOf.
  rewrite Hk. unfold lit.
  destruct Hp as [Ha | (a & Ha & Hlt)];
    [| destruct Hf as [-> | (f & -> & Hf)]]; rewrite Ha.
  - eexists. split; [apply preview_whileLoop_stop; reflexivity |].
    left. reflexivity.
  - eexists. split; [apply preview_whileLoop_stop; reflexivity |].
    left. reflexivity.
  - apply (preview_whileLoop_bounded _ _ _ 10 _ (a + f)%Qc); [reflexivity |].
    rewrite this_add. unfold Qclt, Qcle in *.
    rewrite this_Q2Qc in *.
    change (inject_Z (Z.of_nat 10)) with 10%Q. lra.
Qed.

Lemma preview_frames_drained params paramKey sliderValue timestamps :
  SimulationTooltip.isTimeInterval paramKey = false ->
  forall s,
    previewDrained (Q2Qc 0.01) (SimulationTooltip.default s) ->
    previewDrained (Q2Qc 0.01) (SimulationTooltip.comparison s) ->
    exists s',
      SimulationTooltip.frames sin 10 params paramKey sliderValue timestamps s
        = Some s'.
Proof.
  intros Hk. induction timestamps as [| t ts IH]; intros s Hd Hc.
  - exists s. reflexivity.
  - cbn [SimulationTooltip.frames]. unfold SimulationTooltip.animate.
    set (frameTime := Math_min _ (lit 0.1)).
    assert (Hf : frameTime = NaN \/
                 exists f, frameTime = Num f /\ (f <= Q2Qc 0.1)%Qc)
      by apply Math_min_capped.
    destruct (preview_advance_bounded paramKey params frameTime _ Hk Hf Hd)
      as (d' & -> & Hd').
    destruct (preview_advance_bounded paramKey
                (SimulationTooltip.comparisonSimParams params paramKey
                   sliderValue)
                frameTime _ Hk Hf Hc) as (c' & -> & Hc').
    apply IH; assumption.
Qed.

Lemma previewDrained_initPendulum simParams :
  previewDrained (Q2Qc 0.01) (SimulationTooltip.initPendulum simParams).
Proof.
  right. exists (Q2Qc 0). split; [reflexivity |]. vm_compute. reflexivity.
Qed.

(** A preview reads its parameters for gravity, length and damping only. *)
Lemma preview_whileLoop_ext sp sp' dt speed fuel :
  P.gravity sp = P.gravity sp' -> P.length sp = P.length sp' ->
  P.damping sp = P.damping sp' ->
  forall p,
    SimulationTooltip.whileLoop sin fuel sp dt speed p =
    SimulationTooltip.whileLoop sin fuel sp' dt speed p.
Proof.
  intros Hg Hl Hd. induction fuel as [| fuel IH]; intros p;
    cbn [SimulationTooltip.whileLoop]; [reflexivity |].
  unfold SimulationTooltip.loopBody. rewrite Hg, Hl, Hd.
  destruct (SimulationTooltip.accumulator p >=? dt); [| reflexivity].
  apply IH.
Qed.

Lemma purelyVisual_advance params paramKey sliderValue fuel frameTime p :
  purelyVisual paramKey = true ->
  SimulationTooltip.advance sin fuel paramKey
    (SimulationTooltip.comparisonSimParams params paramKey sliderValue)
    frameTime p =
  SimulationTooltip.advance sin fuel paramKey params frameTime p.
Proof.
  intros Hk. unfold SimulationTooltip.advance.
  destruct paramKey as [[] | |]; try discriminate;
    try reflexivity.
  apply preview_whileLoop_ext; reflexivity.
Qed.

Lemma purelyVisual_frames params paramKey sliderValue fuel timestamps :
  purelyVisual paramKey = true ->
  forall s s',
    SimulationTooltip.comparison s = SimulationTooltip.default s ->
    SimulationTooltip.frames sin fuel params paramKey sliderValue timestamps s
      = Some s' ->
    SimulationTooltip.comparison s' = SimulationTooltip.default s'.
Proof.
  intros Hk. induction timestamps as [| t ts IH]; intros s s' Hs Hrun.
  - cbn in Hrun. injection Hrun as <-. exact Hs.
  - cbn [SimulationTooltip.frames] in Hrun.
    unfold SimulationTooltip.animate in Hrun.
    rewrite (purelyVisual_advance _ _ _ _ _ _ Hk), Hs in Hrun.
    destruct (SimulationTooltip.advance sin fuel paramKey params _
                (SimulationTooltip.default s)) as [d' |]; [| discriminate].
    apply (IH _ s' (eq_refl : SimulationTooltip.comparison
                       (SimulationTooltip.mkState d' d' (Some t)) = d')).
    exact Hrun.
Qed.

(** X20. The tooltips of the mass, the image rotation and the image scale
    show twice the same motion: for these keys the two previews start from
    the same state and, whatever the slider value and the timestamps are,
    after every sequence of frames the comparison pendulum has the angle,
    the velocity and the accumulator of the default pendulum. *)
Theorem visual_key_previews_agree (params : P.SimulatorParams)
    (paramKey : SimulationTooltip.ParamKey) (sliderValue : number)
    (timestamps : list number) :
  purelyVisual paramKey = true ->
  exists s,
    SimulationTooltip.frames sin 10 params paramKey sliderValue timestamps
      (SimulationTooltip.initial params paramKey sliderValue) = Some s /\
    SimulationTooltip.comparison s = SimulationTooltip.default s.
Proof.
  intros Hk.
  assert (Hti : SimulationTooltip.isTimeInterval paramKey = false)
    by (destruct paramKey as [[] | |]; try discriminate; reflexivity).
  destruct (preview_frames_drained params paramKey sliderValue timestamps Hti
              (SimulationTooltip.initial params paramKey sliderValue)
              (previewDrained_initPendulum _) (previewDrained_initPendulum _))
    as (s & Hs).
  exists s. split; [exact Hs |].
  apply (purelyVisual_frames params paramKey sliderValue 10 timestamps Hk
           (SimulationTooltip.initial params paramKey sliderValue) s);
    [| exact Hs].
  destruct paramKey as [[] | |]; try discriminate; reflexivity.
Qed.

End Previews.

Lemma preview_step_is_engine_step_witness :
  P.damping P.defaultParams = lit 0 /\
  previewState
    (SimulationTooltip.loopBody sinSeries2 P.defaultParams (Num (Q2Qc 0.01))
       (lit 20) (SimulationTooltip.initPendulum P.defaultParams)) =
  Spec.semiImplicitEuler sinSeries2 (stepGravity P.defaultParams)
    (V.scaledLength P.defaultParams SimulationTooltip.canvasWidth
       SimulationTooltip.canvasHeight)
    (Num (Q2Qc 0.01) * lit 20)
    (previewState (SimulationTooltip.initPendulum P.defaultParams)).
Proof.
  split; [reflexivity |].
  exact (proj1 (preview_step_is_engine_step sinSeries2 P.defaultParams
                  (Q2Qc 0.01) (lit 20)
                  (SimulationTooltip.initPendulum P.defaultParams) eq_refl)).
Defined.

Lemma visual_key_previews_agree_witness :
  purelyVisual (SimulationTooltip.param SettingsPanel.mass) = true /\
  exists s,
    SimulationTooltip.frames sinSeries2 10 P.defaultParams
      (SimulationTooltip.param SettingsPanel.mass) (lit 2)
      [lit 0; lit 16; lit 5000]
      (SimulationTooltip.initial P.defaultParams
         (SimulationTooltip.param SettingsPanel.mass) (lit 2)) = Some s /\
    SimulationTooltip.comparison s = SimulationTooltip.default s.
Proof.
  split; [reflexivity |].
  exact (visual_key_previews_agree sinSeries2 P.defaultParams
           (SimulationTooltip.param SettingsPanel.mass) (lit 2)
           [lit 0; lit 16; lit 5000] eq_refl).
Defined.

(* ================================================================== *)
(** ** Mirror symmetry *)

Lemma neg_add (x y : number) : - x + - y = - (x + y).
Proof. destruct x, y; cbn; try reflexivity. f_equal. ring. Qed.

Lemma neg_sub (x y : number) : - x - - y = - (x - y).
Proof. destruct x, y; cbn; try reflexivity. f_equal. ring. Qed.

Lemma mul_neg_r (x y : number) : x * - y = - (x * y).
Proof. destruct x, y; cbn; try reflexivity. f_equal. ring. Qed.

Lemma mul_neg_l (x y : number) : - x * y = - (x * y).
Proof. destruct x, y; cbn; try reflexivity. f_equal. ring. Qed.

Section Mirror.

Variable sin : Qc -> Qc.
Hypothesis sin_odd : forall x : Qc, sin (- x)%Qc = (- sin x)%Qc.

Lemma Math_sin_neg (x : number) : Math_sin sin (- x) = - Math_sin sin x.
Proof. destruct x as [| a]; [reflexivity |]. cbn. rewrite sin_odd. reflexivity. Qed.

Lemma vadd_mirrored (a b : Spec.State) :
  Spec.vadd (mirrored a) (mirrored b) = mirrored (Spec.vadd a b).
Proof. unfold Spec.vadd, mirrored. cbn [fst snd]. rewrite !neg_add. reflexivity. Qed.

Lemma vscale_mirrored (k : number) (a : Spec.State) :
  Spec.vscale k (mirrored a) = mirrored (Spec.vscale k a).
Proof.
  unfold Spec.vscale, mirrored. cbn [fst snd]. rewrite !mul_neg_r. reflexivity.
Qed.

Lemma pendulum_mirrored (g L damping : number) (y : Spec.State) :
  Spec.pendulum sin g L damping (mirrored y) =
  mirrored (Spec.pendulum sin g L damping y).
Proof.
  unfold Spec.pendulum, Spec.acceleration, mirrored. cbn [fst snd].
  rewrite Math_sin_neg, !mul_neg_r, neg_sub. reflexivity.
Qed.

Lemma step_mirrored (damping g L h : number) (s : Spec.State) :
  Spec.step sin damping g L h (mirrored s) =
  mirrored (Spec.step sin damping g L h s).
Proof.
  unfold Spec.step. destruct (damping === lit 0).
  - destruct s as [a v]. unfold Spec.semiImplicitEuler, mirrored.
    cbn [fst snd].
    rewrite Math_sin_neg, mul_neg_r, !mul_neg_l, !neg_add, mul_neg_l, neg_add.
    reflexivity.
  - unfold Spec.rk4Step, Spec.RK4.
    repeat rewrite ?pendulum_mirrored, ?vscale_mirrored, ?vadd_mirrored.
    reflexivity.
Qed.

Lemma loopBody_mirror params L l :
  V.loopBody sin params L (mirror l) = mirror (V.loopBody sin params L l).
Proof.
  unfold V.loopBody.
  rewrite (integrate_frame sin params L (mirror l)),
    (integrate_frame sin params L l), !integrate_kinematics.
  change (kinematics (mirror l)) with (mirrored (kinematics l)).
  change (effectiveStep (mirror l)) with (effectiveStep l).
  rewrite step_mirrored. reflexivity.
Qed.

(** X21. The motion is symmetric about the vertical.  If the sine is an odd
    function, then starting from the mirrored state (angle and velocity
    negated) every turn of the loop, with either scheme, leads to the
    mirrored state: after any number of turns the angle and the velocity
    are the negated ones, and the accumulator is the same. *)
Theorem mirrored_start_mirrored_motion (params : P.SimulatorParams)
    (L : number) (l : V.Locals) (n : nat) :
  Nat.iter n (V.loopBody sin params L) (mirror l) =
  mirror (Nat.iter n (V.loopBody sin params L) l).
Proof.
  induction n as [| n IH]; [reflexivity |].
  rewrite !iter_S, IH. apply loopBody_mirror.
Qed.

End Mirror.

Lemma sinSeries2_odd (x : Qc) : sinSeries2 (- x)%Qc = (- sinSeries2 x)%Qc.
Proof. unfold sinSeries2. field. apply Qc_nonzero. vm_compute. reflexivity. Qed.

Lemma mirrored_start_mirrored_motion_witness :
  (forall x : Qc, sinSeries2 (- x)%Qc = (- sinSeries2 x)%Qc) /\
  kinematics
    (Nat.iter 3 (V.loopBody sinSeries2 P.defaultParams (lit 160))
       (mirror (App.locals moonPlaying))) =
  mirrored
    (kinematics
       (Nat.iter 3 (V.loopBody sinSeries2 P.defaultParams (lit 160))
          (App.locals moonPlaying))).
Proof.
  split; [exact sinSeries2_odd |].
  rewrite (mirrored_start_mirrored_motion sinSeries2 sinSeries2_odd
             P.defaultParams (lit 160) (App.locals moonPlaying) 3).
  reflexivity.
Defined.
